(** * XPath extraction and plain-language translation: a Rocq model

    Shallow embedding of [backend/xpath_translator.py] (class
    [XPathTranslator]) and [backend/xpath_parser.py] (class [XPathParser]).

    Conventions of the model.
    - A Python [str] is a [string]; the program's own literals are ASCII
      except the arrow of its output, which is kept as its UTF-8 bytes.  The
      character classes used by [strip], [lower], [isdigit] and the regular
      expressions are those of ASCII text, so the model follows the program
      exactly on ASCII input.
    - A Python [dict] used as a map is a [gmap]; the two ordered tables of
      the translator are association lists, iterated in declaration order.
    - Exceptions are values of [exn]; fallible code lives in [result].
    - [dict] objects passed by reference live in a [heap]; code that can
      reach them lives in the state-and-exception monad [M]. *)

From Stdlib Require Import Ascii String DecimalString.
From stdpp Require Import gmap strings list fin_maps.

(** ** Python string primitives *)

Module PyStr.

Definition code (c : ascii) : nat := nat_of_ascii c.

(** [str.isspace] on one ASCII character: TAB..CR, FS..US and the blank. *)
Definition is_space (c : ascii) : bool :=
  let n := code c in
  ((9 <=? n) && (n <=? 13) || (28 <=? n) && (n <=? 32))%nat.

Definition is_az (c : ascii) : bool :=
  let n := code c in ((97 <=? n) && (n <=? 122))%nat.

Definition is_AZ (c : ascii) : bool :=
  let n := code c in ((65 <=? n) && (n <=? 90))%nat.

Definition is_09 (c : ascii) : bool :=
  let n := code c in ((48 <=? n) && (n <=? 57))%nat.

Definition lower_char (c : ascii) : ascii :=
  if is_AZ c then ascii_of_nat (code c + 32) else c.

Definition upper_char (c : ascii) : ascii :=
  if is_az c then ascii_of_nat (code c - 32) else c.

Fixpoint map_chars (f : ascii → ascii) (s : string) : string :=
  match s with
  | EmptyString => EmptyString
  | String c r => String (f c) (map_chars f r)
  end.

(** [s.lower()] *)
Definition lower (s : string) : string := map_chars lower_char s.

(** [s.capitalize()] *)
Definition capitalize (s : string) : string :=
  match s with
  | EmptyString => EmptyString
  | String c r => String (upper_char c) (lower r)
  end.

(** [s.lstrip(chars)], the character set given as a predicate. *)
Fixpoint lstrip_by (p : ascii → bool) (s : string) : string :=
  match s with
  | EmptyString => EmptyString
  | String c r => if p c then lstrip_by p r else s
  end.

(** [s.rstrip(chars)] *)
Fixpoint rstrip_by (p : ascii → bool) (s : string) : string :=
  match s with
  | EmptyString => EmptyString
  | String c r =>
      match rstrip_by p r with
      | EmptyString => if p c then EmptyString else String c EmptyString
      | r' => String c r'
      end
  end.

Definition strip_by (p : ascii → bool) (s : string) : string :=
  rstrip_by p (lstrip_by p s).

(** [s.strip()] *)
Definition strip (s : string) : string := strip_by is_space s.

Definition is_char (a : ascii) (c : ascii) : bool := Ascii.eqb a c.

Definition is_quote (c : ascii) : bool :=
  is_char "'"%char c || is_char (ascii_of_nat 34) c.

(** [s.startswith(p)] *)
Definition startswith (p s : string) : bool := String.prefix p s.

(** [s.endswith(p)] *)
Fixpoint endswith (p s : string) : bool :=
  String.eqb p s ||
  match s with
  | EmptyString => false
  | String _ r => endswith p r
  end.

(** [sub in s] *)
Fixpoint contains (sub s : string) : bool :=
  String.prefix sub s ||
  match s with
  | EmptyString => false
  | String _ r => contains sub r
  end.

(** [s[n:]] *)
Fixpoint drop (n : nat) (s : string) : string :=
  match n, s with
  | O, _ => s
  | S _, EmptyString => EmptyString
  | S k, String _ r => drop k r
  end.

(** The split of [s] at the first occurrence of [sep], if there is one. *)
Fixpoint split_once (sep s : string) : option (string * string) :=
  if String.prefix sep s then Some (EmptyString, drop (String.length sep) s)
  else
    match s with
    | EmptyString => None
    | String c r =>
        match split_once sep r with
        | Some (a, b) => Some (String c a, b)
        | None => None
        end
    end.

(** [s.split(sep, 1)] for a non-empty [sep]. *)
Definition split1 (sep s : string) : list string :=
  match split_once sep s with
  | Some (a, b) => [a; b]
  | None => [s]
  end.

(** [s.split(c)] for a one-character separator. *)
Fixpoint split (c : ascii) (s : string) : list string :=
  match s with
  | EmptyString => [EmptyString]
  | String a r =>
      if Ascii.eqb a c then EmptyString :: split c r
      else
        match split c r with
        | h :: t => String a h :: t
        | [] => [String a EmptyString]
        end
  end.

(** [s.count(c)] for a one-character needle. *)
Fixpoint count (c : ascii) (s : string) : nat :=
  match s with
  | EmptyString => 0
  | String a r => (if Ascii.eqb a c then 1 else 0) + count c r
  end.

(** [s.replace(c, d)] for a one-character needle. *)
Fixpoint replace (c : ascii) (d : string) (s : string) : string :=
  match s with
  | EmptyString => EmptyString
  | String a r =>
      if Ascii.eqb a c then d +:+ replace c d r else String a (replace c d r)
  end.

Fixpoint all_chars (p : ascii → bool) (s : string) : bool :=
  match s with
  | EmptyString => true
  | String c r => p c && all_chars p r
  end.

(** [s.isdigit()]: at least one character, all of them digits. *)
Definition isdigit (s : string) : bool :=
  match s with
  | EmptyString => false
  | _ => all_chars is_09 s
  end.

(** [sep.join(l)] *)
Fixpoint join (sep : string) (l : list string) : string :=
  match l with
  | [] => EmptyString
  | [x] => x
  | x :: t => x +:+ sep +:+ join sep t
  end.

(** [bool(s)]: a string is true when it is not empty. *)
Definition truthy (s : string) : bool :=
  match s with EmptyString => false | _ => true end.

(** [str(n)] for a natural number. *)
Definition of_nat (n : nat) : string := NilZero.string_of_uint (Nat.to_uint n).

(** [re.sub(r'([a-z])([A-Z])', r'\1 \2', s)]: a match takes a lower-case
    letter and the capital after it; the scan resumes behind the capital. *)
Fixpoint sub_camel (s : string) : string :=
  match s with
  | String a (String b _ as r) =>
      if is_az a && is_AZ b then String a (String " " (sub_camel r))
      else String a (sub_camel r)
  | _ => s
  end.

(** Prefix test that ignores the case of ASCII letters ([re.IGNORECASE]). *)
Fixpoint prefix_ci (w s : string) : bool :=
  match w, s with
  | EmptyString, _ => true
  | String a w', String b s' =>
      Ascii.eqb (lower_char a) (lower_char b) && prefix_ci w' s'
  | _, _ => false
  end.

Fixpoint span_len (p : ascii → bool) (s : string) : nat :=
  match s with
  | EmptyString => 0
  | String c r => if p c then S (span_len p r) else 0
  end.

(** Length of the match of [\s+w\s+] that starts at the head of [s]. *)
Definition match_ws_word (w s : string) : option nat :=
  let n1 := span_len is_space s in
  let s1 := drop n1 s in
  let s2 := drop (String.length w) s1 in
  let n2 := span_len is_space s2 in
  if (0 <? n1)%nat && prefix_ci w s1 && (0 <? n2)%nat
  then Some (n1 + String.length w + n2) else None.

(** [re.split(r'\s+w\s+', s, flags=re.IGNORECASE)]: the text between the
    successive leftmost matches; [skip] counts the characters of the current
    match still to be passed over. *)
Fixpoint re_split_go (w : string) (skip : nat) (s : string) : list string :=
  match s with
  | EmptyString => [EmptyString]
  | String c r =>
      match skip with
      | S k => re_split_go w k r
      | O =>
          match match_ws_word w s with
          | Some n => EmptyString :: re_split_go w (Nat.pred n) r
          | None =>
              match re_split_go w 0 r with
              | h :: t => String c h :: t
              | [] => [String c EmptyString]
              end
          end
      end
  end.

Definition re_split (w s : string) : list string := re_split_go w 0 s.

(** [re.search(name + r'\(([^)]+)\)', s)], giving group 1 of the leftmost
    match. *)
Definition match_call (name s : string) : option string :=
  if String.prefix (name +:+ "(") s then
    let rest := drop (String.length name + 1) s in
    let n := span_len (λ c, negb (is_char ")" c)) rest in
    let args := String.substring 0 n rest in
    if (0 <? n)%nat && String.prefix ")" (drop n rest) then Some args else None
  else None.

Fixpoint re_search_call (name s : string) : option string :=
  match match_call name s with
  | Some a => Some a
  | None =>
      match s with
      | EmptyString => None
      | String _ r => re_search_call name r
      end
  end.

End PyStr.

(** ** Exceptions, objects and the two monads *)

Inductive exn : Type :=
  | ValueError (msg : string)
  | IndexError (msg : string)
  | ParseError (msg : string)
  | OSError (msg : string)
  | RecursionError.

Inductive result (A : Type) : Type :=
  | Ok (a : A)
  | Raise (e : exn).

Arguments Ok {A} a.
Arguments Raise {A} e.

#[global] Instance result_ret : MRet result := λ A a, Ok a.
#[global] Instance result_bind : MBind result := λ A B f m,
  match m with Ok a => f a | Raise e => Raise e end.

(** Values a context mapping can hold. *)
Inductive pyval : Type :=
  | PNone
  | PBool (b : bool)
  | PInt (z : Z)
  | PStr (s : string).

Abbreviation dict := (gmap string pyval).
Abbreviation loc := nat.

(** The [dict] objects alive, by address.  An address beyond the heap does
    not arise in Python; the model reads it as an empty [dict]. *)
Abbreviation heap := (list dict).

Definition M (A : Type) : Type := heap → result A * heap.

#[global] Instance M_ret : MRet M := λ A a h, (Ok a, h).
#[global] Instance M_bind : MBind M := λ A B f m h,
  match m h with
  | (Ok a, h') => f a h'
  | (Raise e, h') => (Raise e, h')
  end.

Definition lift {A} (r : result A) : M A := λ h, (r, h).

(** A [dict] display [{}]: a new object. *)
Definition alloc (d : dict) : M loc := λ h, (Ok (length h), h ++ [d]).

Definition deref (l : loc) : M dict := λ h, (Ok (default ∅ (h !! l)), h).

(** [d.get(key, dflt)] *)
Definition dict_get (l : loc) (key : string) (dflt : pyval) : M pyval :=
  d ← deref l; mret (default dflt (d !! key)).

(** [l[i]] *)
Definition index {A} (l : list A) (i : nat) : result A :=
  match l !! i with
  | Some x => Ok x
  | None => Raise (IndexError "list index out of range")
  end.

(** [a, b = l] *)
Definition unpack2 {A} (l : list A) : result (A * A) :=
  match l with
  | [a; b] => Ok (a, b)
  | [] | [_] => Raise (ValueError "not enough values to unpack")
  | _ => Raise (ValueError "too many values to unpack")
  end.

Definition in_list (x : string) (l : list string) : bool :=
  existsb (String.eqb x) l.

(** ** [XPathTranslator] *)

Module Translator.
Import PyStr.

Definition operators : list (string * string) :=
  [ ("=", "equals");
    ("!=", "does not equal");
    (">", "is greater than");
    (">=", "is greater than or equal to");
    ("<", "is less than");
    ("<=", "is less than or equal to");
    ("and", "AND");
    ("or", "OR");
    ("not", "NOT") ].

Definition functions : list (string * string) :=
  [ ("count", "count the number of");
    ("sum", "calculate the sum of");
    ("concat", "combine");
    ("substring", "extract part of");
    ("string", "convert to text");
    ("number", "convert to number");
    ("boolean", "convert to true/false");
    ("contains", "contains");
    ("starts-with", "starts with");
    ("string-length", "get the length of");
    ("normalize-space", "remove extra spaces from");
    ("translate", "replace characters in");
    ("upper-case", "convert to uppercase");
    ("lower-case", "convert to lowercase") ].

Definition keys (table : list (string * string)) : list string :=
  map fst table.

(** [any(op in s for op in ops)] *)
Definition any_in (ops : list string) (s : string) : bool :=
  existsb (λ op, contains op s) ops.

Definition arrow : string := " → ".

Record DataFlow : Type := {
  source : pyval;
  target : pyval;
  operation : string
}.

Record TranslationResult : Type := {
  description : string;
  steps : list string;
  confidence : string;
  type : string;
  data_flow : DataFlow
}.

Definition determine_type (xpath : string) : string :=
  if startswith "$" xpath then "variable"
  else if any_in ["="; "!="; ">"; "<"; " and "; " or "] xpath then "condition"
  else if any_in (map (λ func, func +:+ "(") (keys functions)) xpath
  then "function"
  else "selection".

Definition humanize_name (name : string) : result string :=
  name ← (if contains ":" name then index (split1 ":" name) 1 else Ok name);
  let name := sub_camel name in
  let name := replace "_" " " name in
  let name := replace "-" " " name in
  let name := strip (lower name) in
  Ok (if truthy name then name else "unknown").

Definition translate_operand (operand : string) : result string :=
  let operand := strip operand in
  if (startswith "'" operand && endswith "'" operand)
     || (startswith (String (ascii_of_nat 34) "") operand
         && endswith (String (ascii_of_nat 34) "") operand)
  then Ok (strip_by is_quote operand)
  else if isdigit (replace "." "" operand) then Ok operand
  else if startswith "$" operand then Ok ("variable " +:+ drop 1 operand)
  else humanize_name operand.

(** The loop of [_translate_condition] over the operator table: [Some d]
    when an iteration returns [d], [None] when the loop runs out. *)
Fixpoint comparison_loop (ops : list (string * string)) (xpath : string)
  : result (option string) :=
  match ops with
  | [] => Ok None
  | (op, op_text) :: rest =>
      if contains op xpath then
        let parts := split1 op xpath in
        if Nat.eqb (length parts) 2 then
          p0 ← index parts 0;
          left ← translate_operand (strip p0);
          p1 ← index parts 1;
          right ← translate_operand (strip p1);
          Ok (Some ("Check if " +:+ left +:+ " " +:+ op_text +:+ " " +:+ right))
        else comparison_loop rest xpath
      else comparison_loop rest xpath
  end.

(** [depth] is the number of frames the interpreter still grants; the
    recursion raises [RecursionError] when none is left. *)
Fixpoint translate_condition (depth : nat) (xpath : string) (context : loc)
  : result string :=
  match depth with
  | O => Raise RecursionError
  | S d =>
      r ← comparison_loop operators xpath;
      match r with
      | Some out => Ok out
      | None =>
          if contains " and " (lower xpath) then
            let conditions := re_split "and" xpath in
            translated ←
              mapM (λ c, translate_condition d (strip c) context) conditions;
            Ok (join " AND " translated)
          else if contains " or " (lower xpath) then
            let conditions := re_split "or" xpath in
            translated ←
              mapM (λ c, translate_condition d (strip c) context) conditions;
            Ok (join " OR " translated)
          else Ok ("Evaluate condition: " +:+ xpath)
      end
  end.

(** The loop of [_translate_function] over the function table. *)
Fixpoint function_loop (fs : list (string * string)) (xpath : string)
  : result (option string) :=
  match fs with
  | [] => Ok None
  | (func_name, func_desc) :: rest =>
      match re_search_call func_name xpath with
      | Some args =>
          arg_desc ← humanize_name args;
          if in_list func_name ["count"; "sum"; "string-length"] then
            Ok (Some (capitalize func_desc +:+ " " +:+ arg_desc))
          else if String.eqb func_name "concat" then
            let arg_parts :=
              map (λ a, strip_by is_quote (strip a)) (split "," args) in
            Ok (Some ("Combine: " +:+ join " + " arg_parts))
          else if String.eqb func_name "substring" then
            Ok (Some ("Extract part of " +:+ arg_desc))
          else if in_list func_name ["contains"; "starts-with"] then
            let arg_parts :=
              map (λ a, strip_by is_quote (strip a)) (split1 "," args) in
            if Nat.eqb (length arg_parts) 2 then
              a0 ← index arg_parts 0;
              a1 ← index arg_parts 1;
              Ok (Some ("Check if " +:+ a0 +:+ " " +:+ func_desc
                        +:+ " '" +:+ a1 +:+ "'"))
            else function_loop rest xpath
          else Ok (Some (capitalize func_desc +:+ " " +:+ arg_desc))
      | None => function_loop rest xpath
      end
  end.

Definition translate_function (xpath : string) (context : loc)
  : result string :=
  r ← function_loop functions xpath;
  match r with
  | Some out => Ok out
  | None => Ok ("Apply function: " +:+ xpath)
  end.

Definition translate_variable (xpath : string) (context : loc)
  : result string :=
  let var_name := lstrip_by (is_char "$") xpath in
  if contains "/" var_name then
    let parts := split "/" var_name in
    var_base ← index parts 0;
    names ← mapM humanize_name (List.skipn 1 parts);
    Ok ("Get " +:+ join arrow names +:+ " from variable '" +:+ var_base
        +:+ "'")
  else Ok ("Use the value of variable '" +:+ var_name +:+ "'").

Definition translate_generic (xpath : string) (context : loc)
  : result string :=
  n ← humanize_name xpath;
  Ok ("XPath expression: " +:+ n).

Definition translate_predicate (depth : nat) (predicate : string) : M string :=
  if isdigit predicate then mret ("position " +:+ predicate)
  else if String.eqb predicate "last()" then mret "the last item"
  else if any_in (keys operators) predicate then
    fresh ← alloc ∅;
    lift (translate_condition depth predicate fresh)
  else mret predicate.

(** One round of the loop of [_translate_selection]: the readable form of
    one path component. *)
Definition readable_part (depth : nat) (part : string) : M string :=
  if contains "[" part then
    bp ← lift (unpack2 (split1 "[" part));
    let predicate := rstrip_by (is_char "]") bp.2 in
    b ← lift (humanize_name bp.1);
    p ← translate_predicate depth predicate;
    mret (b +:+ " where " +:+ p)
  else if startswith "@" part then
    n ← lift (humanize_name (drop 1 part));
    mret ("the " +:+ n +:+ " attribute")
  else if String.eqb part "text()" then mret "the text content"
  else lift (humanize_name part).

Definition translate_selection (depth : nat) (xpath : string) (context : loc)
  : M string :=
  let path := lstrip_by (is_char "/") xpath in
  let parts := List.filter truthy (split "/" path) in
  match parts with
  | [] => mret "Select the root element"
  | _ =>
      readable_parts ← mapM (readable_part depth) parts;
      if Nat.eqb (length readable_parts) 1 then
        r0 ← lift (index readable_parts 0);
        mret ("Select " +:+ r0)
      else mret ("Navigate to: " +:+ join arrow readable_parts)
  end.

(** The loop of [_generate_steps], [i] the number of the next step. *)
Fixpoint steps_loop (i : nat) (parts : list string) : result (list string) :=
  match parts with
  | [] => Ok []
  | part :: rest =>
      step ←
        (if startswith "@" part then
           n ← humanize_name (drop 1 part);
           Ok ("Step " +:+ of_nat i +:+ ": Access the " +:+ n +:+ " attribute")
         else if contains "[" part then
           base ← index (split "[" part) 0;
           n ← humanize_name base;
           Ok ("Step " +:+ of_nat i +:+ ": Select " +:+ n
               +:+ " with specific criteria")
         else
           n ← humanize_name part;
           Ok ("Step " +:+ of_nat i +:+ ": Navigate to " +:+ n));
      more ← steps_loop (S i) rest;
      Ok (step :: more)
  end.

Definition generate_steps (xpath : string) (context : loc)
  : result (list string) :=
  if contains "/" xpath && negb (startswith "$" xpath) then
    steps_loop 1 (List.filter truthy (split "/" xpath))
  else Ok [].

Definition calculate_confidence (xpath : string) : string :=
  if (count "/" xpath <=? 2)%nat && negb (contains "[" xpath)
     && negb (any_in (keys operators) xpath)
  then "high"
  else if (2 <? count "[" xpath)%nat || (3 <? count "(" xpath)%nat then "low"
  else "medium".

Definition extract_data_flow (xpath : string) (context : loc) : M DataFlow :=
  src ← dict_get context "source" (PStr "Unknown");
  tgt ← dict_get context "target" (PStr "Unknown");
  mret {| source := src; target := tgt; operation := determine_type xpath |}.

(** Frames left to [_translate_condition] when [translate] reaches it; the
    interpreter's default limit. *)
Definition recursion_limit : nat := 1000.

(** [context or {}]: an absent or empty mapping is replaced by a new one. *)
Definition context_or_new (context : option loc) : M loc :=
  match context with
  | None => alloc ∅
  | Some l =>
      d ← deref l;
      if Nat.eqb (size d) 0 then alloc ∅ else mret l
  end.

Definition translate (xpath : string) (context : option loc)
  : M TranslationResult :=
  context ← context_or_new context;
  let xpath := strip xpath in
  let expr_type := determine_type xpath in
  description ←
    (if String.eqb expr_type "selection" then
       translate_selection recursion_limit xpath context
     else if String.eqb expr_type "condition" then
       lift (translate_condition recursion_limit xpath context)
     else if String.eqb expr_type "function" then
       lift (translate_function xpath context)
     else if String.eqb expr_type "variable" then
       lift (translate_variable xpath context)
     else lift (translate_generic xpath context));
  steps ← lift (generate_steps xpath context);
  let confidence := calculate_confidence xpath in
  flow ← extract_data_flow xpath context;
  mret {| description := description;
          steps := steps;
          confidence := confidence;
          type := expr_type;
          data_flow := flow |}.

End Translator.

(** ** [XPathParser] *)

Module Parser.
Import PyStr.

(** An [xml.etree.ElementTree.Element]: tag, attributes, the text before
    the first child ([None] when there is none) and the children. *)
#[warnings="-register-all"]
Inductive Element : Type :=
  mkElement (tag : string) (attrib : gmap string string)
            (text : option string) (children : list Element).

Definition tag (e : Element) : string :=
  match e with mkElement t _ _ _ => t end.

Definition attrib (e : Element) : gmap string string :=
  match e with mkElement _ a _ _ => a end.

Definition text (e : Element) : option string :=
  match e with mkElement _ _ t _ => t end.

Definition children (e : Element) : list Element :=
  match e with mkElement _ _ _ c => c end.

(** [e.get(key, dflt)] *)
Definition get (e : Element) (key dflt : string) : string :=
  default dflt (attrib e !! key).

(** [e.iter()]: the element and everything below it, in document order. *)
Fixpoint iter (e : Element) : list Element :=
  match e with
  | mkElement _ _ _ cs =>
      e :: (fix below (l : list Element) : list Element :=
              match l with
              | [] => []
              | c :: l' => iter c ++ below l'
              end) cs
  end.

(** The elements strictly below [e], in document order. *)
Definition descendants (e : Element) : list Element := List.skipn 1 (iter e).

(** [e.findall('.//' + name)] *)
Definition findall (name : string) (e : Element) : list Element :=
  List.filter (λ d, String.eqb (tag d) name) (descendants e).

(** [e.find('.//' + name)] *)
Definition find (name : string) (e : Element) : option Element :=
  head (findall name e).

(** [bool(t)] for an optional text. *)
Definition has_text (t : option string) : bool :=
  match t with Some s => truthy s | None => false end.

Record ProcessVariable : Type := {
  var_name : string;
  var_type : string
}.

Record Metadata : Type := {
  process_name : string;
  description : string;
  variables : list ProcessVariable;
  schemas : list string
}.

Record XPathRecord : Type := {
  id : nat;
  expression : string;
  location : string;
  activity : string;
  context : dict
}.

Record ParseResult : Type := {
  metadata : Metadata;
  xpaths : list XPathRecord
}.

Definition xpath_indicators : list string :=
  [ "/"; "@"; "["; "]";
    "text()"; "node()";
    "ancestor::"; "child::"; "parent::";
    "following::"; "preceding::";
    "count("; "sum("; "concat(";
    "substring("; "string(";
    "$" ].

Definition is_xpath (text : string) : bool :=
  if negb (truthy text) || (String.length text <? 3)%nat then false
  else existsb (λ indicator, contains indicator text) xpath_indicators.

Definition extract_metadata (root : Element) : Metadata :=
  let description :=
    match find "description" root with
    | Some desc_elem =>
        if has_text (text desc_elem) then strip (default "" (text desc_elem))
        else ""
    | None => ""
    end in
  let variables :=
    fold_left
      (λ acc var,
         let var_name := get var "name" "" in
         let var_type := get var "type" "" in
         if truthy var_name
         then acc ++ [{| var_name := var_name; var_type := var_type |}]
         else acc)
      (findall "processVariables" root) [] in
  {| process_name := get root "name" "Unknown";
     description := description;
     variables := variables;
     schemas := [] |}.

Definition extract_context (element : Element) : dict :=
  let context : dict :=
    <["type" := PStr (get element "type" "mapping")]>
      (<["target" := PStr (get element "target" "")]>
         (<["source" := PStr (get element "source" "")]> ∅)) in
  let schema_ref := get element "schemaRef" "" in
  if truthy schema_ref then <["schema" := PStr schema_ref]> context
  else context.

(** The state of an extraction pass: the next identifier [uuid.uuid4()]
    hands out (identifiers are modelled by a counter) and the list
    [xpaths] built so far. *)
Abbreviation pass := (nat * list XPathRecord)%type.

(** [xpaths.append({'id': str(uuid.uuid4()), ...})] *)
Definition append (mk : nat → XPathRecord) (st : pass) : pass :=
  (S st.1, st.2 ++ [mk st.1]).

Definition mapper_step (st : pass) (mapper : Element) : pass :=
  let xpath_expr := get mapper "expression" "" in
  if truthy xpath_expr && is_xpath xpath_expr then
    append (λ i, {| id := i;
                    expression := xpath_expr;
                    location := "Mapper";
                    activity := get mapper "target" "Unknown";
                    context := extract_context mapper |}) st
  else st.

Definition transition_step (st : pass) (transition : Element) : pass :=
  let condition := get transition "condition" "" in
  if truthy condition && is_xpath condition then
    append (λ i, {| id := i;
                    expression := condition;
                    location := "Transition Condition";
                    activity := get transition "to" "Unknown";
                    context := {["type" := PStr "condition"]} |}) st
  else st.

Definition config_step (st : pass) (activity : Element) : pass :=
  let xpath_expr := text activity in
  if has_text xpath_expr && is_xpath (strip (default "" xpath_expr)) then
    append (λ i, {| id := i;
                    expression := strip (default "" xpath_expr);
                    location := "Activity Configuration";
                    activity := get activity "name" "Unknown";
                    context := ∅ |}) st
  else st.

Definition text_step (st : pass) (elem : Element) : pass :=
  if has_text (text elem) && is_xpath (strip (default "" (text elem))) then
    if negb (existsb
               (λ x, String.eqb (expression x) (strip (default "" (text elem))))
               st.2)
    then
      append (λ i, {| id := i;
                      expression := strip (default "" (text elem));
                      location := tag elem;
                      activity := get elem "name" "Unknown";
                      context := ∅ |}) st
    else st
  else st.

(** The list after the three attribute-and-body strategies. *)
Definition structured_pass (root : Element) (st : pass) : pass :=
  let st := fold_left mapper_step (findall "mapping" root) st in
  let st := fold_left transition_step (findall "transition" root) st in
  fold_left config_step (findall "config" root) st.

(** The generic scan over the text of every element. *)
Definition text_scan (root : Element) (st : pass) : pass :=
  fold_left text_step (iter root) st.

(** [_extract_xpaths], from the identifier counter [next]. *)
Definition extract_xpaths (root : Element) (next : nat) : pass :=
  text_scan root (structured_pass root (next, [])).

Section ParseFile.

(** [ET.parse(filepath).getroot()], the library's parser applied to the
    file: the root element, or the exception it raises. *)
Variable ET_parse : string → result Element.

(** [parse_file], with the identifier counter as state. *)
Definition parse_file (filepath : string) (next : nat)
  : result ParseResult * nat :=
  match ET_parse filepath with
  | Ok root =>
      let metadata := extract_metadata root in
      let st := extract_xpaths root next in
      (Ok {| metadata := metadata; xpaths := st.2 |}, st.1)
  | Raise (ParseError e) =>
      (Raise (ValueError ("Failed to parse XML file: " +:+ e)), next)
  | Raise e => (Raise e, next)
  end.

End ParseFile.

End Parser.

(** ** The pure parts of [app.py] *)

Module App.
Import PyStr.

Definition ALLOWED_EXTENSIONS : gset string :=
  {["xml"; "process"; "bwp"]}.

(** The split of [s] at the last occurrence of the character [c]. *)
Fixpoint rsplit_once (c : ascii) (s : string) : option (string * string) :=
  match s with
  | EmptyString => None
  | String a r =>
      match rsplit_once c r with
      | Some (x, y) => Some (String a x, y)
      | None => if Ascii.eqb a c then Some (EmptyString, r) else None
      end
  end.

(** [s.rsplit(c, 1)] for a one-character separator. *)
Definition rsplit1 (c : ascii) (s : string) : list string :=
  match rsplit_once c s with
  | Some (a, b) => [a; b]
  | None => [s]
  end.

Definition allowed_file (filename : string) : result bool :=
  if contains "." filename then
    ext ← index (rsplit1 "." filename) 1;
    Ok (bool_decide (lower ext ∈ ALLOWED_EXTENSIONS))
  else Ok false.

(** An entry of the list [results] built by the route [parse_file]. *)
Record Translated : Type := {
  id : nat;
  xpath : string;
  plain_language : string;
  location : string;
  activity : string;
  steps : list string;
  confidence : string;
  context : dict
}.

(** One round of the loop of the route [parse_file] over the records of a
    document.  The context of a record is a [dict] of its own; it is put on
    the heap when the record is visited. *)
Definition translate_item (xpath_item : Parser.XPathRecord) : M Translated :=
  ctx ← alloc (Parser.context xpath_item);
  translation ← Translator.translate (Parser.expression xpath_item) (Some ctx);
  mret {| id := Parser.id xpath_item;
          xpath := Parser.expression xpath_item;
          plain_language := Translator.description translation;
          location := Parser.location xpath_item;
          activity := Parser.activity xpath_item;
          steps := Translator.steps translation;
          confidence := Translator.confidence translation;
          context := Parser.context xpath_item |}.

(** The loop itself. *)
Definition translate_items (xpaths : list Parser.XPathRecord)
  : M (list Translated) :=
  mapM translate_item xpaths.

End App.

(** ** Vocabulary of the statements *)

(** [runs m P]: from every heap, [m] returns a value that satisfies [P]
    and leaves every object that existed in place, adding new ones at
    most. *)
Definition runs {A} (m : M A) (P : A → Prop) : Prop :=
  ∀ h : heap, ∃ a (t : heap), m h = (Ok a, h ++ t) ∧ P a.

(** The mapping a context argument stands for. *)
Definition context_dict (context : option loc) (h : heap) : dict :=
  match context with
  | Some l => default ∅ (h !! l)
  | None => ∅
  end.

(** A process with one mapping whose expression, "/a/b", is also the text
    of a [note] element: the mapping, then the document. *)
Definition dedup_mapping : Parser.Element :=
  Parser.mkElement "mapping" {["expression" := "/a/b"; "target" := "Out"]}
    None [].


(** The same mapping as the root of the document, above the [note]. *)
Definition dedup_note : Parser.Element :=
  Parser.mkElement "note" ∅ (Some "  /a/b  ") [].

Definition root_mapping_doc : Parser.Element :=
  Parser.mkElement "mapping" {["expression" := "/a/b"; "target" := "Out"]}
    None [ dedup_note ].

(** The expression texts of a list of records. *)
Definition expressions (l : list Parser.XPathRecord) : list string :=
  map Parser.expression l.

(** * Properties *)

(** ** Strings *)

Section StringFacts.
Import PyStr.

Lemma append_nil (b : string) : "" +:+ b = b.
Proof. reflexivity. Qed.

Lemma append_cons (x : ascii) (a b : string) :
  String x a +:+ b = String x (a +:+ b).
Proof. reflexivity. Qed.

Lemma append_assoc (a b c : string) : (a +:+ b) +:+ c = a +:+ b +:+ c.
Proof.
  induction a as [|x a IH]; rewrite ?append_nil, ?append_cons; [done |].
  by rewrite IH.
Qed.

Lemma append_nonempty_l (a b : string) : a ≠ "" → a +:+ b ≠ "".
Proof. destruct a; rewrite ?append_cons; [done | discriminate]. Qed.

Lemma append_nonempty_r (a b : string) : b ≠ "" → a +:+ b ≠ "".
Proof. destruct a; rewrite ?append_nil, ?append_cons; [done | discriminate]. Qed.

Lemma prefix_spec (p s : string) :
  String.prefix p s = true ↔ ∃ r, s = p +:+ r.
Proof.
  revert p; induction s as [|b s IH]; intros [|a p]; simpl.
  - split; [by exists "" | done].
  - split; [done | intros [r Hr]; by rewrite append_cons in Hr].
  - split; [by eexists | done].
  - destruct (ascii_dec a b) as [->|Hne].
    + rewrite IH. split; intros [r Hr]; exists r;
        rewrite append_cons in *; congruence.
    + split; [done | intros [r Hr]; rewrite append_cons in Hr; congruence].
Qed.

Lemma contains_spec (sub s : string) :
  contains sub s = true ↔ ∃ a b, s = a +:+ sub +:+ b.
Proof.
  induction s as [|c s IH].
  - cbn [contains]. rewrite orb_false_r, prefix_spec. split.
    + intros [r Hr]. by exists "", r.
    + intros (a & b & Hab). destruct a; rewrite ?append_cons in Hab;
        [by exists b | done].
  - cbn [contains]. rewrite orb_true_iff, prefix_spec, IH. split.
    + intros [[r Hr] | (a & b & Hab)].
      * by exists "", r.
      * exists (String c a), b. by rewrite append_cons, Hab.
    + intros (a & b & Hab). destruct a as [|x a]; rewrite ?append_cons in Hab.
      * left. by exists b.
      * right. exists a, b. congruence.
Qed.

(** A needle inside a needle that occurs, occurs. *)
Lemma contains_inner (u v w s : string) :
  contains (u +:+ v +:+ w) s = true → contains v s = true.
Proof.
  rewrite !contains_spec. intros (a & b & ->).
  exists (a +:+ u), (w +:+ b). by rewrite !append_assoc.
Qed.

Lemma contains_split_once (sep s : string) :
  contains sep s = true → ∃ a b, split_once sep s = Some (a, b).
Proof.
  induction s as [|c s IH]; cbn [contains split_once].
  - rewrite orb_false_r. intros ->. eauto.
  - destruct (String.prefix sep (String c s)); [eauto |].
    simpl. intros H. destruct (IH H) as (a & b & ->). eauto.
Qed.

Lemma split1_two (sep s : string) :
  contains sep s = true → ∃ a b, split1 sep s = [a; b].
Proof.
  intros H. unfold split1.
  destruct (contains_split_once _ _ H) as (a & b & ->). eauto.
Qed.

Lemma split_cons (c : ascii) (s : string) : ∃ h t, split c s = h :: t.
Proof.
  induction s as [|a s (h & t & IH)]; simpl; [eauto |].
  destruct (Ascii.eqb a c); [eauto |]. rewrite IH. eauto.
Qed.

End StringFacts.

(** ** The two monads *)

Section MonadFacts.

Lemma bind_Ok {A B} (a : A) (f : A → result B) : Ok a ≫= f = f a.
Proof. reflexivity. Qed.

Lemma ret_Ok {A} (a : A) : mret a = Ok a.
Proof. reflexivity. Qed.

Lemma mapM_result_ok {A B} (f : A → result B) (l : list A) :
  (∀ x, ∃ y, f x = Ok y) → ∃ ys, mapM f l = Ok ys ∧ length ys = length l.
Proof.
  intros Hf. induction l as [|x l (ys & IH & Hlen)]; simpl; [by exists [] |].
  destruct (Hf x) as [y Hy]. exists (y :: ys).
  rewrite Hy, bind_Ok, IH, bind_Ok, ret_Ok. simpl. by rewrite Hlen.
Qed.

Lemma runs_ret {A} (a : A) (P : A → Prop) : P a → runs (mret a) P.
Proof. intros HP h. exists a, []. by rewrite app_nil_r. Qed.

Lemma runs_lift {A} (r : result A) (a : A) (P : A → Prop) :
  r = Ok a → P a → runs (lift r) P.
Proof. intros -> HP h. exists a, []. by rewrite app_nil_r. Qed.

Lemma runs_bind {A B} (m : M A) (f : A → M B) (P : A → Prop) (Q : B → Prop) :
  runs m P → (∀ a, P a → runs (f a) Q) → runs (m ≫= f) Q.
Proof.
  intros Hm Hf h. destruct (Hm h) as (a & t & Ha & HP).
  destruct (Hf a HP (h ++ t)) as (b & t' & Hb & HQ).
  exists b, (t ++ t'). unfold mbind, M_bind. rewrite Ha, Hb.
  by rewrite app_assoc.
Qed.

Lemma runs_alloc (d : dict) : runs (alloc d) (λ _, True).
Proof. intros h. by exists (length h), [d]. Qed.

Lemma runs_mapM {A B} (f : A → M B) (l : list A) :
  (∀ x, runs (f x) (λ _, True)) →
  runs (mapM f l) (λ ys, length ys = length l).
Proof.
  intros Hf. induction l as [|x l IH]; simpl.
  - by apply runs_ret.
  - eapply runs_bind; [apply Hf |]. intros y _.
    eapply runs_bind; [apply IH |]. intros ys Hlen.
    apply runs_ret. simpl. by rewrite Hlen.
Qed.

End MonadFacts.

(** ** The translator never fails *)

Section TranslatorFacts.
Import PyStr Translator.

Lemma index_cons0 {A} (x : A) (l : list A) : index (x :: l) 0 = Ok x.
Proof. reflexivity. Qed.

Lemma index_cons1 {A} (x y : A) (l : list A) : index (x :: y :: l) 1 = Ok y.
Proof. reflexivity. Qed.

Lemma humanize_name_ok (name : string) : ∃ s, humanize_name name = Ok s.
Proof.
  unfold humanize_name. destruct (contains ":" name) eqn:Hc.
  - destruct (split1_two _ _ Hc) as (a & b & ->).
    rewrite index_cons1, bind_Ok. eauto.
  - rewrite bind_Ok. eauto.
Qed.

Lemma translate_operand_ok (operand : string) :
  ∃ s, translate_operand operand = Ok s.
Proof.
  unfold translate_operand.
  repeat match goal with |- context [if ?b then _ else _] => destruct b end;
    eauto using humanize_name_ok.
Qed.

(** An operator of the table that occurs in the text ends the loop of
    [_translate_condition] with a "Check if" sentence. *)
Lemma comparison_loop_hit (ops : list (string * string)) (xpath : string) :
  any_in (keys ops) xpath = true →
  ∃ left op_text right,
    comparison_loop ops xpath
    = Ok (Some ("Check if " +:+ left +:+ " " +:+ op_text +:+ " " +:+ right)).
Proof.
  induction ops as [|[op txt] ops IH]; [done |].
  cbn [keys map fst any_in existsb comparison_loop].
  destruct (contains op xpath) eqn:Hc.
  - intros _. destruct (split1_two _ _ Hc) as (a & b & ->).
    cbn [length Nat.eqb]. rewrite index_cons0, bind_Ok.
    destruct (translate_operand_ok (strip a)) as [l ->]. rewrite bind_Ok.
    rewrite index_cons1, bind_Ok.
    destruct (translate_operand_ok (strip b)) as [r ->]. rewrite bind_Ok.
    eauto.
  - exact IH.
Qed.

Lemma translate_condition_S (d : nat) (xpath : string) (context : loc) :
  translate_condition (S d) xpath context
  = (r ← comparison_loop operators xpath;
     match r with
     | Some out => Ok out
     | None =>
         if contains " and " (lower xpath) then
           translated ←
             mapM (λ c, translate_condition d (strip c) context)
                  (re_split "and" xpath);
           Ok (join " AND " translated)
         else if contains " or " (lower xpath) then
           translated ←
             mapM (λ c, translate_condition d (strip c) context)
                  (re_split "or" xpath);
           Ok (join " OR " translated)
         else Ok ("Evaluate condition: " +:+ xpath)
     end).
Proof. reflexivity. Qed.

Lemma translate_condition_hit (d : nat) (xpath : string) (context : loc) :
  any_in (keys operators) xpath = true →
  ∃ left op_text right,
    translate_condition (S d) xpath context
    = Ok ("Check if " +:+ left +:+ " " +:+ op_text +:+ " " +:+ right).
Proof.
  intros H. destruct (comparison_loop_hit _ _ H) as (l & txt & r & Hloop).
  exists l, txt, r. by rewrite translate_condition_S, Hloop, bind_Ok.
Qed.

Lemma any_in_elem (ops : list string) (op s : string) :
  op ∈ ops → contains op s = true → any_in ops s = true.
Proof.
  intros Hin Hc. apply existsb_exists. exists op.
  split; [by apply list_elem_of_In | done].
Qed.

Lemma comparison_loop_miss (ops : list (string * string)) (xpath : string) :
  any_in (keys ops) xpath = false → comparison_loop ops xpath = Ok None.
Proof.
  induction ops as [|[op txt] ops IH]; [done |].
  cbn [keys map fst any_in existsb comparison_loop].
  intros [-> H]%orb_false_iff. by apply IH.
Qed.

(** The split at " and " is taken only by a text that holds no key of the
    operator table at all, "and", "or" and "not" included: the token must be
    in capitals. *)
Lemma and_split_when_no_key (d : nat) (xpath : string) (context : loc) :
  any_in (keys operators) xpath = false →
  contains " and " (lower xpath) = true →
  translate_condition (S d) xpath context
  = (translated ←
       mapM (λ c, translate_condition d (strip c) context)
            (re_split "and" xpath);
     Ok (join " AND " translated)).
Proof.
  intros Hkey Hand.
  by rewrite translate_condition_S, (comparison_loop_miss _ _ Hkey), bind_Ok,
    Hand.
Qed.

(** A text with a lower-case " and " never reaches that split. *)
Lemma lowercase_and_is_compared (d : nat) (xpath : string) (context : loc) :
  contains " and " xpath = true →
  ∃ left op_text right,
    translate_condition (S d) xpath context
    = Ok ("Check if " +:+ left +:+ " " +:+ op_text +:+ " " +:+ right).
Proof.
  intros H. apply translate_condition_hit.
  apply (any_in_elem _ "and"); [set_solver |].
  by apply (contains_inner " " "and" " ").
Qed.

Lemma recursion_limit_S : ∃ d, recursion_limit = S d.
Proof. by exists 999. Qed.

(** Whatever makes an expression a condition is, or holds, a key of the
    operator table. *)
Lemma condition_has_operator (xpath : string) :
  any_in ["="; "!="; ">"; "<"; " and "; " or "] xpath = true →
  any_in (keys operators) xpath = true.
Proof.
  unfold any_in at 1. cbn [existsb]. rewrite !orb_true_iff.
  intros [H|[H|[H|[H|[H|[H|H]]]]]]; [..| done].
  - apply (any_in_elem _ "="); [set_solver | done].
  - apply (any_in_elem _ "!="); [set_solver | done].
  - apply (any_in_elem _ ">"); [set_solver | done].
  - apply (any_in_elem _ "<"); [set_solver | done].
  - apply (any_in_elem _ "and"); [set_solver |].
    by apply (contains_inner " " "and" " ").
  - apply (any_in_elem _ "or"); [set_solver |].
    by apply (contains_inner " " "or" " ").
Qed.

Lemma determine_type_cases (xpath : string) :
  (determine_type xpath = "variable" ∧ startswith "$" xpath = true)
  ∨ (determine_type xpath = "condition"
     ∧ any_in (keys operators) xpath = true)
  ∨ determine_type xpath = "function"
  ∨ determine_type xpath = "selection".
Proof.
  unfold determine_type. destruct (startswith "$" xpath); [by left |].
  destruct (any_in ["="; "!="; ">"; "<"; " and "; " or "] xpath) eqn:H.
  - right; left. split; [done | by apply condition_has_operator].
  - destruct (any_in (map _ _) xpath);
      [right; right; left | right; right; right]; done.
Qed.

Lemma function_loop_ok (fs : list (string * string)) (xpath : string) :
  ∃ r, function_loop fs xpath = Ok r ∧ ∀ d, r = Some d → d ≠ "".
Proof.
  induction fs as [|[name desc] fs IH]; cbn [function_loop].
  { exists None. by split. }
  destruct (re_search_call name xpath) as [args|]; [| exact IH].
  destruct (humanize_name_ok args) as [arg_desc ->]. rewrite bind_Ok.
  assert (∀ a b : string, a +:+ " " +:+ b ≠ "") as Hsp.
  { intros a b. by apply append_nonempty_r, append_nonempty_l. }
  destruct (in_list name _).
  { eexists. split; [done |]. intros d [= <-]. apply Hsp. }
  destruct (String.eqb name "concat").
  { eexists. split; [done |]. intros d [= <-]. by apply append_nonempty_l. }
  destruct (String.eqb name "substring").
  { eexists. split; [done |]. intros d [= <-]. by apply append_nonempty_l. }
  destruct (in_list name _).
  - unfold split1. destruct (split_once "," args) as [[a b]|].
    + cbn [map length Nat.eqb]. rewrite index_cons0, bind_Ok.
      rewrite index_cons1, bind_Ok.
      eexists. split; [done |]. intros d [= <-]. by apply append_nonempty_l.
    + cbn [map length Nat.eqb]. exact IH.
  - eexists. split; [done |]. intros d [= <-]. apply Hsp.
Qed.

Lemma translate_function_ok (xpath : string) (context : loc) :
  ∃ d, translate_function xpath context = Ok d ∧ d ≠ "".
Proof.
  unfold translate_function.
  destruct (function_loop_ok functions xpath) as ([d|] & -> & Hne);
    rewrite bind_Ok.
  - exists d. split; [done | by apply Hne].
  - eexists. split; [done | by apply append_nonempty_l].
Qed.

Lemma translate_variable_ok (xpath : string) (context : loc) :
  ∃ d, translate_variable xpath context = Ok d ∧ d ≠ "".
Proof.
  unfold translate_variable.
  destruct (contains "/" _).
  - destruct (split_cons "/" (lstrip_by (is_char "$") xpath)) as (b & t & ->).
    rewrite index_cons0, bind_Ok.
    destruct (mapM_result_ok humanize_name (List.skipn 1 (b :: t))
                humanize_name_ok) as (names & -> & _).
    rewrite bind_Ok. eexists. split; [done | by apply append_nonempty_l].
  - eexists. split; [done | by apply append_nonempty_l].
Qed.

Lemma steps_loop_ok (parts : list string) (i : nat) :
  ∃ ss, steps_loop i parts = Ok ss ∧ length ss = length parts.
Proof.
  revert i. induction parts as [|part parts IH]; intros i; cbn [steps_loop].
  { by exists []. }
  destruct (IH (S i)) as (more & Hmore & Hlen).
  destruct (startswith "@" part); [| destruct (contains "[" part)].
  - destruct (humanize_name_ok (drop 1 part)) as [n ->].
    rewrite !bind_Ok, Hmore, bind_Ok. eexists. split; [done |].
    simpl. by rewrite Hlen.
  - destruct (split_cons "[" part) as (b & t & ->).
    rewrite index_cons0, bind_Ok.
    destruct (humanize_name_ok b) as [n ->].
    rewrite !bind_Ok, Hmore, bind_Ok. eexists. split; [done |].
    simpl. by rewrite Hlen.
  - destruct (humanize_name_ok part) as [n ->].
    rewrite !bind_Ok, Hmore, bind_Ok. eexists. split; [done |].
    simpl. by rewrite Hlen.
Qed.

Lemma generate_steps_ok (xpath : string) (context : loc) :
  ∃ ss, generate_steps xpath context = Ok ss.
Proof.
  unfold generate_steps. destruct (_ && _); [| by eexists].
  destruct (steps_loop_ok (List.filter truthy (split "/" xpath)) 1)
    as (ss & -> & _).
  by eexists.
Qed.

Lemma mapM_result_ext {A B} (f g : A → result B) (l : list A) :
  (∀ x, f x = g x) → mapM f l = mapM g l.
Proof.
  intros Hfg. induction l as [|x l IH]; [done |].
  cbn [mapM]. by rewrite Hfg, IH.
Qed.

(** [_translate_condition] never looks at its context. *)
Lemma translate_condition_context (d : nat) (xpath : string) (l l' : loc) :
  translate_condition d xpath l = translate_condition d xpath l'.
Proof.
  revert xpath. induction d as [|d IH]; intros xpath; [done |].
  rewrite !translate_condition_S.
  by rewrite (mapM_result_ext _ (λ c, translate_condition d (strip c) l')),
     (mapM_result_ext (λ c, translate_condition d (strip c) l)
                      (λ c, translate_condition d (strip c) l')).
Qed.

Lemma translate_predicate_runs (d : nat) (predicate : string) :
  runs (translate_predicate (S d) predicate) (λ _, True).
Proof.
  unfold translate_predicate.
  destruct (isdigit predicate); [by apply runs_ret |].
  destruct (String.eqb predicate "last()"); [by apply runs_ret |].
  destruct (any_in (keys operators) predicate) eqn:H; [| by apply runs_ret].
  eapply runs_bind; [apply runs_alloc |]. intros fresh _.
  destruct (translate_condition_hit d predicate fresh H) as (l & t & r & Hc).
  by eapply runs_lift.
Qed.

Lemma readable_part_runs (d : nat) (part : string) :
  runs (readable_part (S d) part) (λ _, True).
Proof.
  unfold readable_part. destruct (contains "[" part) eqn:Hc.
  - destruct (split1_two _ _ Hc) as (a & b & ->).
    eapply runs_bind; [by eapply (runs_lift _ _ (λ _, True)) |].
    intros bp _. destruct (humanize_name_ok bp.1) as [n Hn].
    eapply runs_bind; [by eapply (runs_lift _ _ (λ _, True)) |]. intros ? _.
    eapply runs_bind; [apply translate_predicate_runs |]. intros ? _.
    by apply runs_ret.
  - destruct (startswith "@" part).
    + destruct (humanize_name_ok (drop 1 part)) as [n Hn].
      eapply runs_bind; [by eapply (runs_lift _ _ (λ _, True)) |]. intros ? _.
      by apply runs_ret.
    + destruct (String.eqb part "text()"); [by apply runs_ret |].
      destruct (humanize_name_ok part) as [n Hn]. by eapply runs_lift.
Qed.

Lemma translate_selection_runs (d : nat) (xpath : string) (context : loc) :
  runs (translate_selection (S d) xpath context) (λ out, out ≠ "").
Proof.
  unfold translate_selection.
  destruct (List.filter truthy _) as [|p ps]; [by apply runs_ret |].
  eapply runs_bind; [apply runs_mapM, readable_part_runs |].
  intros rs Hlen. destruct rs as [|r0 rs]; [done |].
  destruct (Nat.eqb (length (r0 :: rs)) 1).
  - eapply runs_bind; [by eapply (runs_lift _ _ (λ _, True)) |]. intros ? _.
    apply runs_ret. by apply append_nonempty_l.
  - apply runs_ret. by apply append_nonempty_l.
Qed.

Lemma context_or_new_spec (context : option loc) (h : heap) :
  ∃ l t, context_or_new context h = (Ok l, h ++ t)
         ∧ (h ++ t) !! l = Some (context_dict context h).
Proof.
  assert (alloc ∅ h = (Ok (length h), h ++ [∅])
          ∧ (h ++ [∅ : dict]) !! length h = Some (∅ : dict)) as [Ha Hl].
  { split; [done | by apply list_lookup_middle]. }
  destruct context as [l|]; cbn [context_or_new context_dict].
  - unfold mbind, M_bind, deref.
    destruct (Nat.eqb (size (default ∅ (h !! l))) 0) eqn:Hsz.
    + apply Nat.eqb_eq, map_size_empty_iff in Hsz. rewrite Hsz. eauto.
    + exists l, []. rewrite app_nil_r. split; [done |].
      destruct (h !! l) as [d|]; [done |].
      simpl in Hsz. by rewrite ?map_size_empty in Hsz.
  - eauto.
Qed.

Lemma extract_data_flow_run (xpath : string) (l : loc) (h : heap) (d : dict) :
  h !! l = Some d →
  extract_data_flow xpath l h
  = (Ok {| source := default (PStr "Unknown") (d !! "source");
           target := default (PStr "Unknown") (d !! "target");
           operation := determine_type xpath |}, h).
Proof.
  intros Hl. unfold extract_data_flow, dict_get, deref, mbind, M_bind, mret,
    M_ret. by rewrite Hl.
Qed.

Lemma bind_run {A B} (m : M A) (f : A → M B) (h h' : heap) (a : A) :
  m h = (Ok a, h') → (m ≫= f) h = f a h'.
Proof. intros H. unfold mbind, M_bind. by rewrite H. Qed.

(** What every call of [translate] does: it returns, the description is not
    empty, the four other fields are the helpers' results, and the heap keeps
    all its objects. *)
Lemma translate_run (xpath : string) (context : option loc) (h : heap) :
  ∃ r t,
    translate xpath context h = (Ok r, h ++ t)
    ∧ description r ≠ ""
    ∧ type r = determine_type (strip xpath)
    ∧ generate_steps (strip xpath) 0 = Ok (steps r)
    ∧ confidence r = calculate_confidence (strip xpath)
    ∧ data_flow r
      = {| source := default (PStr "Unknown")
                             (context_dict context h !! "source");
           target := default (PStr "Unknown")
                             (context_dict context h !! "target");
           operation := determine_type (strip xpath) |}
    ∧ (type r = "variable"
       → translate_variable (strip xpath) 0 = Ok (description r))
    ∧ (type r = "condition"
       → translate_condition recursion_limit (strip xpath) 0
         = Ok (description r))
    ∧ (type r = "function"
       → translate_function (strip xpath) 0 = Ok (description r)).
Proof.
  destruct (context_or_new_spec context h) as (l & t1 & Hctx & Hl).
  destruct recursion_limit_S as [fuel Hfuel].
  set (x := strip xpath).
  assert (∃ d t2,
    (if String.eqb (determine_type x) "selection" then
       translate_selection recursion_limit x l
     else if String.eqb (determine_type x) "condition" then
       lift (translate_condition recursion_limit x l)
     else if String.eqb (determine_type x) "function" then
       lift (translate_function x l)
     else if String.eqb (determine_type x) "variable" then
       lift (translate_variable x l)
     else lift (translate_generic x l)) (h ++ t1) = (Ok d, (h ++ t1) ++ t2)
    ∧ d ≠ ""
    ∧ (determine_type x = "variable" → translate_variable x 0 = Ok d)
    ∧ (determine_type x = "condition"
       → translate_condition recursion_limit x 0 = Ok d)
    ∧ (determine_type x = "function" → translate_function x 0 = Ok d))
    as (d & t2 & Hd & Hne & Hvar & Hcond & Hfun).
  { rewrite Hfuel.
    destruct (determine_type_cases x) as [[Ht _]|[[Ht Hop]|[Ht|Ht]]];
      rewrite Ht; cbn [String.eqb Ascii.eqb Bool.eqb].
    - destruct (translate_variable_ok x l) as (d & Hd & Hne).
      exists d, []. rewrite app_nil_r. unfold lift. rewrite Hd.
      repeat split; [done | done | done..].
    - destruct (translate_condition_hit fuel x l Hop) as (a & b & c & Hd).
      eexists _, []. rewrite app_nil_r. unfold lift. rewrite Hd.
      repeat split; [by apply append_nonempty_l | done | | done].
      intros _. by rewrite (translate_condition_context _ _ 0 l).
    - destruct (translate_function_ok x l) as (d & Hd & Hne).
      exists d, []. rewrite app_nil_r. unfold lift. rewrite Hd.
      repeat split; [done | done | done..].
    - destruct (translate_selection_runs fuel x l (h ++ t1))
        as (d & t2 & Hd & Hne).
      exists d, t2. repeat split; done. }
  destruct (generate_steps_ok x l) as [ss Hss].
  eexists _, (t1 ++ t2). unfold translate.
  rewrite (bind_run _ _ _ _ _ Hctx). cbv zeta. fold x.
  rewrite (bind_run _ _ _ _ _ Hd).
  rewrite (bind_run (lift (generate_steps x l)) _ _ _ ss)
    by (unfold lift; by rewrite Hss).
  rewrite (bind_run _ _ _ _ _
             (extract_data_flow_run x l _ _
                (lookup_app_l_Some _ t2 _ _ Hl))).
  rewrite app_assoc. split; [done |]. cbn [description type steps confidence
    data_flow]. repeat split; done.
Qed.

End TranslatorFacts.

(** ** Claims about the translator *)

Section TranslatorClaims.
Import PyStr Translator.

(** C8. Name humanization on the four sample names: "OrderId" gives
    "order id", "order_total" gives "order total", "ns:Element-Name" gives
    "element name", and the empty name gives "unknown". *)
Theorem humanize_name_samples :
  humanize_name "OrderId" = Ok "order id"
  ∧ humanize_name "order_total" = Ok "order total"
  ∧ humanize_name "ns:Element-Name" = Ok "element name"
  ∧ humanize_name "" = Ok "unknown".
Proof. repeat split; reflexivity. Qed.

(** C4. For every input string and every context argument, absent or not,
    [translate] raises nothing and returns a result whose description is
    not the empty string. *)
Theorem translate_never_raises
    (xpath : string) (context : option loc) (h : heap) :
  ∃ r h', translate xpath context h = (Ok r, h') ∧ description r ≠ "".
Proof.
  destruct (translate_run xpath context h) as (r & t & Hrun & Hne & _).
  by exists r, (h ++ t).
Qed.

(** C10. [translate] does not change the mapping it is given: the context
    object holds after the call what it held before, as does every other
    object, and the data flow of the result carries the values the mapping
    has under "source" and "target", "Unknown" where it has none. *)
Theorem translate_keeps_context
    (xpath : string) (l : loc) (h : heap) (d : dict) :
  h !! l = Some d →
  ∃ r h',
    translate xpath (Some l) h = (Ok r, h')
    ∧ h' !! l = Some d
    ∧ (∀ l' d', h !! l' = Some d' → h' !! l' = Some d')
    ∧ source (data_flow r) = default (PStr "Unknown") (d !! "source")
    ∧ target (data_flow r) = default (PStr "Unknown") (d !! "target").
Proof.
  intros Hl.
  destruct (translate_run xpath (Some l) h)
    as (r & t & Hrun & _ & _ & _ & _ & Hflow & _).
  exists r, (h ++ t). cbn [context_dict] in Hflow. rewrite Hl in Hflow.
  rewrite Hflow. repeat split; [done | | | done..].
  - by apply lookup_app_l_Some.
  - intros l' d'. by apply lookup_app_l_Some.
Qed.

(** The same on a path expression and a context with a source only. *)
Lemma translate_keeps_context_witness :
  ∃ r h',
    translate "//Order/Customer/@id" (Some 0)
      [{["source" := PStr "orders.xml"]}] = (Ok r, h')
    ∧ h' !! 0 = Some ({["source" := PStr "orders.xml"]} : dict)
    ∧ (∀ l' d', [({["source" := PStr "orders.xml"]} : dict)] !! l' = Some d'
                → h' !! l' = Some d')
    ∧ source (data_flow r)
      = default (PStr "Unknown")
          (({["source" := PStr "orders.xml"]} : dict) !! "source")
    ∧ target (data_flow r)
      = default (PStr "Unknown")
          (({["source" := PStr "orders.xml"]} : dict) !! "target").
Proof.
  exact (translate_keeps_context "//Order/Customer/@id" 0
           [{["source" := PStr "orders.xml"]}]
           {["source" := PStr "orders.xml"]} eq_refl).
Defined.

Lemma any_in_false (ops : list string) (s : string) :
  any_in ops s = false ↔ ∀ op, op ∈ ops → contains op s = false.
Proof.
  unfold any_in. induction ops as [|o ops IH]; cbn [existsb].
  - split; [intros _ op Hin; by apply elem_of_nil in Hin | done].
  - rewrite orb_false_iff, IH. split.
    + intros [Ho Hops] op [->|Hin]%elem_of_cons; auto.
    + intros H. split; [apply H; left | intros op Hin; apply H; by right].
Qed.

(** C7. The confidence is "high" exactly when the expression has at most
    two "/", no "[" and no key of the operator table; failing that it is
    "low" exactly when it has more than two "[" or more than three "(";
    and "medium" exactly in the remaining case: one band for every
    expression. *)
Theorem confidence_bands (xpath : string) :
  let simple :=
    (count "/" xpath ≤ 2)%nat
    ∧ contains "[" xpath = false
    ∧ (∀ op, op ∈ keys operators → contains op xpath = false) in
  let nested := (2 < count "[" xpath)%nat ∨ (3 < count "(" xpath)%nat in
  (calculate_confidence xpath = "high" ↔ simple)
  ∧ (calculate_confidence xpath = "low" ↔ ¬ simple ∧ nested)
  ∧ (calculate_confidence xpath = "medium" ↔ ¬ simple ∧ ¬ nested).
Proof.
  cbv zeta. rewrite <- any_in_false. unfold calculate_confidence.
  rewrite <- Nat.leb_le, <- !Nat.ltb_lt.
  destruct (count "/" xpath <=? 2)%nat, (contains "[" xpath),
    (any_in (keys operators) xpath), (2 <? count "[" xpath)%nat,
    (3 <? count "(" xpath)%nat; cbn [andb orb negb];
    intuition congruence.
Qed.

Lemma variable_type_starts_with_dollar (xpath : string) :
  determine_type xpath = "variable" → startswith "$" xpath = true.
Proof.
  intros H.
  destruct (determine_type_cases xpath) as [[_ Hs]|[[Ht _]|[Ht|Ht]]];
    [done | rewrite Ht in H; discriminate..].
Qed.

(** C1, against the claim: on "$orderData/Order/TotalAmount > 1000" with
    the context {type: "condition"} the expression is not classified as a
    condition, and no "Check if" sentence is returned. *)
Lemma order_total_is_not_a_condition :
  ¬ ∃ r h',
      translate "$orderData/Order/TotalAmount > 1000" (Some 0)
        [{["type" := PStr "condition"]}] = (Ok r, h')
      ∧ type r = "condition".
Proof.
  intros (r & h' & Hrun & Ht). vm_compute in Hrun.
  injection Hrun as <- _. discriminate Ht.
Qed.

(** C1, amended.  Whatever the context, "$orderData/Order/TotalAmount >
    1000" starts with "$" and so is classified as "variable"; the whole text
    after the "$" is rendered by the variable rule, the comparison staying
    inside the last path segment. *)
Theorem order_total_is_a_variable (context : option loc) (h : heap) :
  ∃ r h',
    translate "$orderData/Order/TotalAmount > 1000" context h = (Ok r, h')
    ∧ type r = "variable"
    ∧ description r
      = "Get order → total amount > 1000 from variable 'orderData'".
Proof.
  destruct (translate_run "$orderData/Order/TotalAmount > 1000" context h)
    as (r & t & Hrun & _ & Ht & _ & _ & _ & Hvar & _).
  assert (determine_type (strip "$orderData/Order/TotalAmount > 1000")
          = "variable") as Edt by (vm_compute; reflexivity).
  assert (translate_variable (strip "$orderData/Order/TotalAmount > 1000") 0
          = Ok "Get order → total amount > 1000 from variable 'orderData'")
    as Etv by (vm_compute; reflexivity).
  rewrite Edt in Ht. rewrite Etv in Hvar.
  exists r, (h ++ t). specialize (Hvar Ht). by injection Hvar as <-.
Qed.

(** C5, against the claim: the description of "count(//Items/Item)" is not
    "Count the number of items item". *)
Lemma count_items_description_differs :
  ¬ ∃ r h',
      translate "count(//Items/Item)" None [] = (Ok r, h')
      ∧ description r = "Count the number of items item".
Proof.
  intros (r & h' & Hrun & Hd). vm_compute in Hrun.
  injection Hrun as <- _. discriminate Hd.
Qed.

(** C5, amended.  [translate("count(//Items/Item)")] is classified as
    "function", the "count(" opener matches with the argument
    "//Items/Item", the description is "Count the number of //items/item"
    (humanization leaves the slashes in), and the confidence is "medium". *)
Theorem count_items_translation (context : option loc) (h : heap) :
  ∃ r h',
    translate "count(//Items/Item)" context h = (Ok r, h')
    ∧ type r = "function"
    ∧ re_search_call "count" "count(//Items/Item)" = Some "//Items/Item"
    ∧ description r = "Count the number of //items/item"
    ∧ confidence r = "medium".
Proof.
  destruct (translate_run "count(//Items/Item)" context h)
    as (r & t & Hrun & _ & Ht & _ & Hc & _ & _ & _ & Hfun).
  assert (determine_type (strip "count(//Items/Item)") = "function")
    as Edt by (vm_compute; reflexivity).
  assert (translate_function (strip "count(//Items/Item)") 0
          = Ok "Count the number of //items/item")
    as Etf by (vm_compute; reflexivity).
  assert (calculate_confidence (strip "count(//Items/Item)") = "medium")
    as Ecc by (vm_compute; reflexivity).
  rewrite Edt in Ht. rewrite Etf in Hfun. rewrite Ecc in Hc.
  exists r, (h ++ t). specialize (Hfun Ht). injection Hfun as <-.
  repeat split; done.
Qed.

(** C6, against the claim: "count(//Items/Item)" is a function expression
    and has three steps. *)
Lemma steps_of_a_function_expression :
  ¬ ∀ xpath context h r h',
      translate xpath context h = (Ok r, h') →
      type r ≠ "selection" → steps r = [].
Proof.
  intros H.
  specialize (H "count(//Items/Item)" None [] _ _ eq_refl).
  by specialize (H ltac:(vm_compute; discriminate)).
Qed.

(** C6, amended.  The steps depend on the text, not on the type: there are
    none when the stripped expression starts with "$" (every variable
    expression does) or has no "/"; otherwise, whatever the type, there is
    one step for each non-empty piece between the "/". *)
Theorem steps_follow_the_slashes
    (xpath : string) (context : option loc) (h : heap) :
  let x := strip xpath in
  ∃ r h',
    translate xpath context h = (Ok r, h')
    ∧ (type r = "variable" → steps r = [])
    ∧ (startswith "$" x = true → steps r = [])
    ∧ (contains "/" x = false → steps r = [])
    ∧ (contains "/" x = true → startswith "$" x = false →
       steps_loop 1 (List.filter truthy (split "/" x)) = Ok (steps r)
       ∧ length (steps r) = length (List.filter truthy (split "/" x))).
Proof.
  intros x.
  destruct (translate_run xpath context h)
    as (r & t & Hrun & _ & Ht & Hsteps & _).
  fold x in Ht, Hsteps. exists r, (h ++ t). split; [done |].
  unfold generate_steps in Hsteps.
  assert (startswith "$" x = true → steps r = []) as Hdollar.
  { intros Hs. rewrite Hs, andb_false_r in Hsteps. congruence. }
  split; [| split; [done | split]].
  - intros Hv. apply Hdollar, variable_type_starts_with_dollar. congruence.
  - intros Hc. rewrite Hc in Hsteps. cbn [andb] in Hsteps. congruence.
  - intros Hc Hs. rewrite Hc, Hs in Hsteps. cbn [andb negb] in Hsteps.
    destruct (steps_loop_ok (List.filter truthy (split "/" x)) 1)
      as (ss & Hss & Hlen).
    split; congruence.
Qed.

(** C3, at the failing input "Paid and Shipped and Closed": the expression
    is a condition without comparison operator and with " and ", the split
    at that token gives its three parts, yet the result is a single "Check
    if" sentence cut at the first "and": the loop over the operator table
    takes its key "and" before the split is reached. *)
Theorem and_split_is_shadowed :
  determine_type "Paid and Shipped and Closed" = "condition"
  ∧ any_in ["="; "!="; ">"; ">="; "<"; "<="] "Paid and Shipped and Closed"
    = false
  ∧ contains " and " (lower "Paid and Shipped and Closed") = true
  ∧ re_split "and" "Paid and Shipped and Closed"
    = ["Paid"; "Shipped"; "Closed"]
  ∧ translate_condition recursion_limit "Paid and Shipped and Closed" 0
    = Ok "Check if paid AND shipped and closed"
  ∧ (r ← mapM (λ c, translate_condition recursion_limit (strip c) 0)
               (re_split "and" "Paid and Shipped and Closed");
     Ok (join " AND " r))
    = Ok ("Evaluate condition: Paid AND Evaluate condition: Shipped"
          +:+ " AND Evaluate condition: Closed").
Proof. repeat split; vm_compute; reflexivity. Qed.

End TranslatorClaims.

(** ** Claims about the extractor *)

Section ParserClaims.
Import PyStr Parser.

Lemma append_records (mk : nat → XPathRecord) (st : pass) :
  (append mk st).2 = st.2 ++ [mk st.1].
Proof. reflexivity. Qed.






Lemma grows_by_nothing (l : list XPathRecord) (e : string) :
  ∃ added, l = l ++ added ∧ e ∉ expressions added.
Proof. exists []. rewrite app_nil_r. split; [done | apply not_elem_of_nil]. Qed.

(** The text scan adds no record for an expression the list already
    holds. *)
Lemma text_step_skips (st : pass) (elem : Element) (e : string) :
  e ∈ expressions st.2 →
  ∃ added, (text_step st elem).2 = st.2 ++ added
           ∧ e ∉ expressions added.
Proof.
  intros Hin. unfold text_step.
  destruct (_ && _); [| apply grows_by_nothing].
  destruct (existsb _ st.2) eqn:Hex; cbn [negb]; [apply grows_by_nothing |].
  rewrite append_records. eexists. split; [done |].
  cbn [expressions map expression]. intros ->%list_elem_of_singleton.
  apply list_elem_of_fmap in Hin as (r & Hr & Hin).
  apply not_true_iff_false in Hex. apply Hex, existsb_exists.
  exists r. split; [by apply list_elem_of_In |]. by apply String.eqb_eq.
Qed.

Lemma text_scan_skips (els : list Element) (st : pass) (e : string) :
  e ∈ expressions st.2 →
  ∃ added, (fold_left text_step els st).2 = st.2 ++ added
           ∧ e ∉ expressions added.
Proof.
  revert st. induction els as [|el els IH]; intros st Hin; cbn [fold_left].
  - apply grows_by_nothing.
  - destruct (text_step_skips st el e Hin) as (a1 & H1 & Hn1).
    destruct (IH (text_step st el)) as (a2 & H2 & Hn2).
    { rewrite H1. unfold expressions. rewrite map_app.
      apply elem_of_app. by left. }
    exists (a1 ++ a2). rewrite H2, H1, app_assoc. split; [done |].
    unfold expressions in *. rewrite map_app, elem_of_app. tauto.
Qed.

(** What the text scan adds is new: no text twice, none that is listed. *)
Lemma text_step_fresh (st : pass) (e : Element) :
  ∃ added, (text_step st e).2 = st.2 ++ added
    ∧ NoDup (expressions added)
    ∧ ∀ x, x ∈ expressions added → x ∉ expressions st.2.
Proof.
  assert (∃ added : list XPathRecord, st.2 = st.2 ++ added
            ∧ NoDup (expressions added)
            ∧ ∀ x, x ∈ expressions added → x ∉ expressions st.2) as Hnone.
  { exists []. rewrite app_nil_r. repeat split; [constructor |].
    intros x Hx. by apply elem_of_nil in Hx. }
  unfold text_step. destruct (_ && _); [| exact Hnone].
  destruct (existsb _ st.2) eqn:Hex; cbn [negb]; [exact Hnone |].
  rewrite append_records. eexists. split; [done |].
  cbn [expressions map expression]. split; [apply NoDup_singleton |].
  intros x ->%list_elem_of_singleton (r & Hr & Hin)%list_elem_of_fmap.
  apply not_true_iff_false in Hex. apply Hex, existsb_exists.
  exists r. split; [by apply list_elem_of_In |]. by apply String.eqb_eq.
Qed.

Lemma text_fold_fresh (els : list Element) (st : pass) :
  ∃ added, (fold_left text_step els st).2 = st.2 ++ added
    ∧ NoDup (expressions added)
    ∧ ∀ x, x ∈ expressions added → x ∉ expressions st.2.
Proof.
  revert st. induction els as [|e els IH]; intros st; cbn [fold_left].
  - exists []. rewrite app_nil_r. repeat split; [constructor |].
    intros x Hx. by apply elem_of_nil in Hx.
  - destruct (text_step_fresh st e) as (a1 & H1 & N1 & D1).
    destruct (IH (text_step st e)) as (a2 & H2 & N2 & D2).
    rewrite H1 in D2. unfold expressions in *.
    exists (a1 ++ a2). rewrite H2, H1, app_assoc. split; [done |].
    rewrite map_app. split.
    + apply NoDup_app. repeat split; [done | | done].
      intros x Hx1 Hx2. apply (D2 x Hx2). rewrite map_app, elem_of_app. tauto.
    + intros x [Hx|Hx]%elem_of_app; [by apply D1 |].
      intros Hin. apply (D2 x Hx). rewrite map_app, elem_of_app. tauto.
Qed.











(** The document whose root is the mapping: the Mapper strategy, which
    searches below the root, passes the root over, and the one record is the
    text scan's, for the [note]. *)
Lemma root_mapping_is_left_to_the_scan :
  tag root_mapping_doc = "mapping"
  ∧ get root_mapping_doc "expression" "" = "/a/b"
  ∧ findall "mapping" root_mapping_doc = []
  ∧ map (λ r, (expression r, location r))
        (extract_xpaths root_mapping_doc 0).2
    = [("/a/b", "note")].
Proof. repeat split. Qed.



(** C9, against the claim: a parse error does not reach the caller
    unchanged. *)
Lemma parse_error_is_replaced :
  (parse_file (λ _, Raise (ParseError "mismatched tag: line 3, column 2"))
     "broken.xml" 0).1
  ≠ Raise (ParseError "mismatched tag: line 3, column 2").
Proof. discriminate. Qed.

(** C9, amended.  When the document cannot be parsed, extraction raises a
    [ValueError] whose message is "Failed to parse XML file: " followed by
    the text of the parse error; it does so at once, and returns no result:
    no metadata, no record, no identifier drawn. *)
Theorem parse_error_becomes_value_error
    (ET_parse : string → result Element) (filepath msg : string) (next : nat) :
  ET_parse filepath = Raise (ParseError msg) →
  parse_file ET_parse filepath next
  = (Raise (ValueError ("Failed to parse XML file: " +:+ msg)), next).
Proof. intros H. unfold parse_file. by rewrite H. Qed.

(** The same for a parser that rejects every file. *)
Lemma parse_error_becomes_value_error_witness :
  parse_file (λ _, Raise (ParseError "mismatched tag: line 3, column 2"))
    "broken.xml" 0
  = (Raise (ValueError ("Failed to parse XML file: "
                        +:+ "mismatched tag: line 3, column 2")), 0).
Proof.
  exact (parse_error_becomes_value_error
           (λ _, Raise (ParseError "mismatched tag: line 3, column 2"))
           "broken.xml" "mismatched tag: line 3, column 2" 0 eq_refl).
Defined.

End ParserClaims.

(** * Further properties of the translator *)

Section TranslatorMore.
Import PyStr Translator.

(** X1. The type of a result is one of the four labels, so the generic
    rendering that [translate] keeps for any other label is never used; and
    the operation of the data flow is that same type. *)
Theorem type_is_one_of_four
    (xpath : string) (context : option loc) (h : heap) :
  ∃ r h',
    translate xpath context h = (Ok r, h')
    ∧ type r ∈ ["variable"; "condition"; "function"; "selection"]
    ∧ operation (data_flow r) = type r.
Proof.
  destruct (translate_run xpath context h)
    as (r & t & Hrun & _ & Ht & _ & _ & Hflow & _).
  exists r, (h ++ t). rewrite Hflow, Ht. cbn [operation].
  split; [done |]. split; [| done].
  destruct (determine_type_cases (strip xpath)) as [[-> _]|[[-> _]|[->| ->]]];
    set_solver.
Qed.

(** X2. Where the text of a condition holds "=", the table's first key wins:
    the text is cut at the first "=" and the phrase is "equals", also when
    that "=" is the second character of "!=", ">=" or "<=". *)
Theorem equals_sign_wins (d : nat) (xpath : string) (context : loc) :
  contains "=" xpath = true →
  ∃ a b left right,
    split_once "=" xpath = Some (a, b)
    ∧ translate_operand (strip a) = Ok left
    ∧ translate_operand (strip b) = Ok right
    ∧ translate_condition (S d) xpath context
      = Ok ("Check if " +:+ left +:+ " equals " +:+ right).
Proof.
  intros Hc. destruct (contains_split_once _ _ Hc) as (a & b & Hs).
  destruct (translate_operand_ok (strip a)) as [left Hl].
  destruct (translate_operand_ok (strip b)) as [right Hr].
  exists a, b, left, right. repeat split; [done..|].
  rewrite translate_condition_S. unfold operators.
  cbn [comparison_loop]. rewrite Hc. unfold split1. rewrite Hs.
  cbn [length Nat.eqb]. rewrite index_cons0, bind_Ok, Hl, bind_Ok.
  by rewrite index_cons1, bind_Ok, Hr, !bind_Ok.
Qed.

(** On "total >= 10" the phrase is "equals" and the ">" stays in the left
    operand. *)
Lemma equals_sign_wins_witness :
  ∃ a b left right,
    split_once "=" "total >= 10" = Some (a, b)
    ∧ translate_operand (strip a) = Ok left
    ∧ translate_operand (strip b) = Ok right
    ∧ translate_condition 1 "total >= 10" 0
      = Ok ("Check if " +:+ left +:+ " equals " +:+ right).
Proof. exact (equals_sign_wins 0 "total >= 10" 0 eq_refl). Defined.

(** X3. A condition is never rated "high", nor is any expression with a
    "[": the confidence of such a result is "medium" or "low". *)
Theorem condition_is_never_high
    (xpath : string) (context : option loc) (h : heap) :
  ∃ r h',
    translate xpath context h = (Ok r, h')
    ∧ (type r = "condition" → confidence r ∈ ["medium"; "low"])
    ∧ (contains "[" (strip xpath) = true → confidence r ∈ ["medium"; "low"]).
Proof.
  destruct (translate_run xpath context h)
    as (r & t & Hrun & _ & Ht & _ & Hc & _).
  exists r, (h ++ t). split; [done |]. rewrite Hc, Ht.
  unfold calculate_confidence. split.
  - intros Hcond.
    destruct (determine_type_cases (strip xpath)) as [[E _]|[[_ Hop]|[E|E]]];
      [rewrite E in Hcond; discriminate | | rewrite E in Hcond; discriminate..].
    rewrite Hop, !andb_false_r. destruct (_ || _); set_solver.
  - intros ->. rewrite andb_false_r. cbn [andb]. destruct (_ || _); set_solver.
Qed.

Lemma lstrip_by_fixed (p : ascii → bool) (c : ascii) (r : string) :
  p c = false → lstrip_by p (String c r) = String c r.
Proof. intros H. cbn [lstrip_by]. by rewrite H. Qed.

Lemma lstrip_by_head (p : ascii → bool) (s : string) :
  lstrip_by p s = ""
  ∨ ∃ c r, lstrip_by p s = String c r ∧ p c = false.
Proof.
  induction s as [|c s IH]; [by left |].
  cbn [lstrip_by]. destruct (p c) eqn:Hc; [done | right; eauto].
Qed.

Lemma rstrip_by_head (p : ascii → bool) (c : ascii) (r : string) :
  p c = false → ∃ r', rstrip_by p (String c r) = String c r'.
Proof.
  intros H. cbn [rstrip_by]. destruct (rstrip_by p r); rewrite ?H; eauto.
Qed.

Lemma rstrip_by_idem (p : ascii → bool) (s : string) :
  rstrip_by p (rstrip_by p s) = rstrip_by p s.
Proof.
  induction s as [|c s IH]; [done |].
  cbn [rstrip_by]. destruct (rstrip_by p s) as [|c' s'] eqn:Hs.
  - destruct (p c) eqn:Hc; [done |]. cbn [rstrip_by]. by rewrite Hc.
  - cbn [rstrip_by] in *. by rewrite IH.
Qed.

Lemma strip_by_idem (p : ascii → bool) (s : string) :
  strip_by p (strip_by p s) = strip_by p s.
Proof.
  unfold strip_by. destruct (lstrip_by_head p s) as [->|(c & r & -> & Hc)];
    [done |].
  destruct (rstrip_by_head p c r Hc) as [r' Hr]. rewrite Hr at 1.
  rewrite (lstrip_by_fixed _ _ _ Hc), <- Hr. apply rstrip_by_idem.
Qed.

(** X4. Blanks around the expression do not matter: [translate] gives for
    an expression what it gives for the expression trimmed. *)
Theorem translate_ignores_outer_blanks
    (xpath : string) (context : option loc) (h : heap) :
  translate (strip xpath) context h = translate xpath context h.
Proof. unfold translate, strip. by rewrite strip_by_idem. Qed.

(** [yields m v]: from every heap, [m] returns [v] and only adds objects. *)
Definition yields {A} (m : M A) (v : A) : Prop :=
  ∀ h : heap, ∃ t : heap, m h = (Ok v, h ++ t).

Lemma yields_ret {A} (a : A) : yields (mret a) a.
Proof. intros h. exists []. by rewrite app_nil_r. Qed.

Lemma yields_lift {A} (r : result A) (a : A) : r = Ok a → yields (lift r) a.
Proof. intros -> h. exists []. by rewrite app_nil_r. Qed.

Lemma yields_bind {A B} (m : M A) (f : A → M B) (a : A) (b : B) :
  yields m a → yields (f a) b → yields (m ≫= f) b.
Proof.
  intros Hm Hf h. destruct (Hm h) as [t Ha]. destruct (Hf (h ++ t)) as [t' Hb].
  exists (t ++ t'). by rewrite (bind_run _ _ _ _ _ Ha), Hb, app_assoc.
Qed.

Lemma yields_mapM {A B} (f : A → M B) (g : A → B) (l : list A) :
  (∀ x, yields (f x) (g x)) → yields (mapM f l) (map g l).
Proof.
  intros Hf. induction l as [|x l IH]; cbn [mapM map].
  - apply yields_ret.
  - eapply yields_bind; [apply Hf |].
    eapply yields_bind; [apply IH |]. apply yields_ret.
Qed.

Lemma translate_predicate_yields (d : nat) (predicate : string) :
  ∃ v, yields (translate_predicate (S d) predicate) v.
Proof.
  unfold translate_predicate.
  destruct (isdigit predicate); [eexists; apply yields_ret |].
  destruct (String.eqb predicate "last()"); [eexists; apply yields_ret |].
  destruct (any_in (keys operators) predicate) eqn:H;
    [| eexists; apply yields_ret].
  destruct (translate_condition_hit d predicate 0 H) as (a & b & c & Hc).
  eexists. intros h. exists [∅].
  unfold mbind, M_bind, alloc, lift.
  by rewrite (translate_condition_context _ _ (length h) 0), Hc.
Qed.

Lemma readable_part_yields (d : nat) (part : string) :
  ∃ v, yields (readable_part (S d) part) v.
Proof.
  unfold readable_part. destruct (contains "[" part) eqn:Hc.
  - destruct (split1_two _ _ Hc) as (a & b & ->).
    destruct (humanize_name_ok a) as [n Hn].
    destruct (translate_predicate_yields d (rstrip_by (is_char "]") b))
      as [v Hv].
    eexists. eapply yields_bind; [by apply yields_lift |].
    eapply yields_bind; [by apply yields_lift |].
    eapply yields_bind; [exact Hv |]. apply yields_ret.
  - destruct (startswith "@" part).
    + destruct (humanize_name_ok (drop 1 part)) as [n Hn].
      eexists. eapply yields_bind; [by apply yields_lift |]. apply yields_ret.
    + destruct (String.eqb part "text()"); [eexists; apply yields_ret |].
      destruct (humanize_name_ok part) as [n Hn].
      eexists. by apply yields_lift.
Qed.

Lemma readable_parts_yield (d : nat) (parts : list string) :
  ∃ vs, yields (mapM (readable_part (S d)) parts) vs
        ∧ length vs = length parts.
Proof.
  induction parts as [|p ps (vs & IH & Hlen)]; cbn [mapM].
  - exists []. split; [apply yields_ret | done].
  - destruct (readable_part_yields d p) as [v Hv].
    exists (v :: vs). split; [| simpl; by rewrite Hlen].
    eapply yields_bind; [exact Hv |].
    eapply yields_bind; [exact IH |]. apply yields_ret.
Qed.

Lemma translate_selection_yields (d : nat) (xpath : string) :
  ∃ v, ∀ context, yields (translate_selection (S d) xpath context) v.
Proof.
  unfold translate_selection.
  destruct (List.filter truthy _) as [|p ps];
    [eexists; intros _; apply yields_ret |].
  destruct (readable_parts_yield d (p :: ps)) as (vs & Hvs & Hlen).
  destruct vs as [|r0 vs]; [done |].
  destruct (Nat.eqb (length (r0 :: vs)) 1) eqn:E.
  - eexists. intros _. eapply yields_bind; [exact Hvs |]. rewrite E.
    eapply yields_bind; [by apply yields_lift |]. apply yields_ret.
  - eexists. intros _. eapply yields_bind; [exact Hvs |]. rewrite E.
    apply yields_ret.
Qed.

(** X5. The context has no part in the wording: the description, the steps,
    the confidence and the type of a result are the same for every context
    and every state of the heap. *)
Theorem context_does_not_change_the_text (xpath : string) :
  ∃ d s c t, ∀ (context : option loc) (h : heap),
    ∃ r h',
      translate xpath context h = (Ok r, h')
      ∧ description r = d ∧ steps r = s ∧ confidence r = c ∧ type r = t.
Proof.
  destruct recursion_limit_S as [fuel Hfuel].
  destruct (translate_selection_yields fuel (strip xpath)) as [dsel Hsel].
  destruct (generate_steps_ok (strip xpath) 0) as [ss Hss].
  destruct (determine_type_cases (strip xpath)) as [[E _]|[[E _]|[E|E]]].
  - destruct (translate_variable_ok (strip xpath) 0) as (d & Hd & _).
    exists d, ss, (calculate_confidence (strip xpath)), "variable".
    intros context h.
    destruct (translate_run xpath context h)
      as (r & t & Hrun & _ & Ht & Hs & Hc & _ & Hv & _).
    exists r, (h ++ t). rewrite E in Ht. specialize (Hv Ht).
    repeat split; congruence.
  - destruct (translate_run xpath None [])
      as (r0 & _ & _ & _ & Ht0 & _ & _ & _ & _ & Hcond0 & _).
    rewrite E in Ht0. specialize (Hcond0 Ht0).
    exists (description r0), ss, (calculate_confidence (strip xpath)),
      "condition".
    intros context h.
    destruct (translate_run xpath context h)
      as (r & t & Hrun & _ & Ht & Hs & Hc & _ & _ & Hcond & _).
    exists r, (h ++ t). rewrite E in Ht. specialize (Hcond Ht).
    repeat split; congruence.
  - destruct (translate_function_ok (strip xpath) 0) as (d & Hd & _).
    exists d, ss, (calculate_confidence (strip xpath)), "function".
    intros context h.
    destruct (translate_run xpath context h)
      as (r & t & Hrun & _ & Ht & Hs & Hc & _ & _ & _ & Hf).
    exists r, (h ++ t). rewrite E in Ht. specialize (Hf Ht).
    repeat split; congruence.
  - exists dsel, ss, (calculate_confidence (strip xpath)), "selection".
    intros context h.
    destruct (context_or_new_spec context h) as (l & t1 & Hctx & Hl).
    destruct (Hsel l (h ++ t1)) as [t2 Hd]. rewrite <- Hfuel in Hd.
    eexists _, _. unfold translate.
    rewrite (bind_run _ _ _ _ _ Hctx). cbv zeta. rewrite E.
    cbn [String.eqb Ascii.eqb Bool.eqb].
    rewrite (bind_run _ _ _ _ _ Hd).
    rewrite (bind_run (lift (generate_steps (strip xpath) l)) _ _ _ ss)
      by (unfold lift; by rewrite <- Hss).
    rewrite (bind_run _ _ _ _ _
               (extract_data_flow_run (strip xpath) l _ _
                  (lookup_app_l_Some _ t2 _ _ Hl))).
    split; [done |]. cbn [description type steps confidence]. done.
Qed.

Lemma all_chars_app (p : ascii → bool) (a b : string) :
  all_chars p (a +:+ b) = all_chars p a && all_chars p b.
Proof.
  induction a as [|c a IH]; [done |].
  rewrite append_cons. cbn [all_chars]. by rewrite IH, andb_assoc.
Qed.

Lemma all_chars_lstrip (p q : ascii → bool) (s : string) :
  all_chars p s = true → all_chars p (lstrip_by q s) = true.
Proof.
  induction s as [|c s IH]; [done |].
  cbn [lstrip_by]. destruct (q c); [| done].
  cbn [all_chars]. intros [_ H]%andb_true_iff. by apply IH.
Qed.

Lemma all_chars_rstrip (p q : ascii → bool) (s : string) :
  all_chars p s = true → all_chars p (rstrip_by q s) = true.
Proof.
  induction s as [|c s IH]; [done |].
  cbn [all_chars rstrip_by]. intros [Hc Hs]%andb_true_iff.
  specialize (IH Hs). destruct (rstrip_by q s).
  - destruct (q c); [done |]. cbn [all_chars]. by rewrite Hc.
  - cbn [all_chars] in *. by rewrite Hc, IH.
Qed.

Lemma all_chars_replace (p q : ascii → bool) (c : ascii) (d s : string) :
  all_chars p s = true →
  all_chars q d = true →
  (∀ a, p a = true → Ascii.eqb a c = false → q a = true) →
  all_chars q (replace c d s) = true.
Proof.
  intros Hs Hd Hpq. induction s as [|a s IH]; [done |].
  cbn [all_chars replace] in *. apply andb_true_iff in Hs as [Ha Hs].
  destruct (Ascii.eqb a c) eqn:Hac.
  - by rewrite all_chars_app, Hd, IH.
  - cbn [all_chars]. by rewrite (Hpq a Ha Hac), IH.
Qed.

Lemma all_chars_map (p : ascii → bool) (f : ascii → ascii) (s : string) :
  all_chars p (map_chars f s) = all_chars (λ c, p (f c)) s.
Proof. induction s as [|c s IH]; [done |]. cbn. by rewrite IH. Qed.

Lemma all_chars_impl (p q : ascii → bool) (s : string) :
  (∀ c, p c = true → q c = true) →
  all_chars p s = true → all_chars q s = true.
Proof.
  intros Hpq. induction s as [|c s IH]; [done |].
  cbn [all_chars]. intros [Hc Hs]%andb_true_iff. by rewrite (Hpq c Hc), IH.
Qed.

Lemma all_chars_true (s : string) : all_chars (λ _, true) s = true.
Proof. induction s as [|c s IH]; [done |]. done. Qed.

(** What is left of a character in a humanized name: no capital of A..Z,
    no underscore, no hyphen. *)
Definition plain_char (c : ascii) : bool :=
  negb (is_AZ c) && negb (is_char "_" c) && negb (is_char "-" c).

Lemma lower_char_plain (c : ascii) :
  negb (is_char "_" c) && negb (is_char "-" c) = true →
  plain_char (lower_char c) = true.
Proof. destruct c as [[] [] [] [] [] [] [] []]; by vm_compute. Qed.

(** X6. A humanized name is never empty, holds no capital of A..Z, no
    underscore and no hyphen, and has no blank at either end. *)
Theorem humanize_name_is_plain (name : string) :
  ∃ out,
    humanize_name name = Ok out
    ∧ out ≠ ""
    ∧ all_chars plain_char out = true
    ∧ strip out = out.
Proof.
  unfold humanize_name.
  assert (∃ n, (if contains ":" name then index (split1 ":" name) 1
                else Ok name) = Ok n) as [n ->].
  { destruct (contains ":" name) eqn:Hc; [| by eexists].
    destruct (split1_two _ _ Hc) as (a & b & ->). by eexists. }
  rewrite bind_Ok.
  set (body := lower (replace "-" " " (replace "_" " " (sub_camel n)))).
  eexists. split; [done |].
  assert (all_chars plain_char body = true) as Hbody.
  { unfold body, lower. rewrite all_chars_map.
    apply (all_chars_impl
             (λ c, negb (is_char "_" c) && negb (is_char "-" c)));
      [apply lower_char_plain |].
    apply (all_chars_replace (λ c, negb (is_char "_" c))); [| done |].
    - apply (all_chars_replace (λ _, true)); [apply all_chars_true | done |].
      intros a _ Ha. unfold is_char. by rewrite Ascii.eqb_sym, Ha.
    - intros a Ha Hb. unfold is_char at 2. by rewrite Ha, Ascii.eqb_sym, Hb. }
  destruct (truthy (strip body)) eqn:Ht.
  - split; [by destruct (strip body) |]. split.
    + by apply all_chars_rstrip, all_chars_lstrip.
    + apply strip_by_idem.
  - by vm_compute.
Qed.

Lemma prefix_one_char (a c : ascii) (x y : string) :
  String.prefix (String a "") (String c x)
  = String.prefix (String a "") (String c y).
Proof. cbn. destruct (ascii_dec a c); [by destruct x, y | done]. Qed.

Lemma split_once_first (a : ascii) (u v : string) :
  contains (String a "") u = false →
  split_once (String a "") (u +:+ String a v) = Some (u, v).
Proof.
  induction u as [|c u IH]; intros Hc.
  - rewrite append_nil. cbn. by destruct (ascii_dec a a), v.
  - cbn [contains] in Hc. apply orb_false_iff in Hc as [Hp Hc].
    rewrite append_cons. cbn [split_once].
    rewrite (prefix_one_char a c _ u), Hp. by rewrite (IH Hc).
Qed.

(** X7. A namespace prefix does not change the humanized name: with no ":"
    in the prefix nor in the name, "prefix:name" is humanized as "name". *)
Theorem namespace_prefix_is_dropped (ns name : string) :
  contains ":" ns = false →
  contains ":" name = false →
  humanize_name (ns +:+ ":" +:+ name) = humanize_name name.
Proof.
  intros Hns Hname. unfold humanize_name. rewrite Hname.
  assert (contains ":" (ns +:+ ":" +:+ name) = true) as ->.
  { apply contains_spec. by exists ns, name. }
  unfold split1. change (":" +:+ name) with (String ":" name).
  by rewrite (split_once_first ":" ns name Hns).
Qed.

Lemma namespace_prefix_is_dropped_witness :
  humanize_name ("tns" +:+ ":" +:+ "OrderId") = humanize_name "OrderId".
Proof. exact (namespace_prefix_is_dropped "tns" "OrderId" eq_refl eq_refl). Defined.

Lemma step_prefix (i : nat) (verb rest : string) :
  startswith ("Step " +:+ of_nat i +:+ ": ")
             ("Step " +:+ of_nat i +:+ (": " +:+ verb) +:+ rest) = true.
Proof.
  apply prefix_spec. exists (verb +:+ rest). by rewrite !append_assoc.
Qed.

Lemma steps_loop_numbered (parts : list string) (i : nat) (ss : list string) :
  steps_loop i parts = Ok ss →
  ∀ k s, ss !! k = Some s →
         startswith ("Step " +:+ of_nat (i + k) +:+ ": ") s = true.
Proof.
  revert i ss. induction parts as [|part parts IH]; intros i ss;
    cbn [steps_loop].
  { intros [= <-] k s Hk. by rewrite lookup_nil in Hk. }
  destruct (steps_loop_ok parts (S i)) as (more & Hmore & _).
  rewrite Hmore. specialize (IH (S i) more Hmore).
  assert (∀ step, startswith ("Step " +:+ of_nat i +:+ ": ") step = true →
                  ∀ k s, (step :: more) !! k = Some s →
                  startswith ("Step " +:+ of_nat (i + k) +:+ ": ") s = true)
    as Hall.
  { intros step Hstep [|k] s Hk.
    - rewrite Nat.add_0_r. by injection Hk as <-.
    - rewrite Nat.add_succ_r. by apply (IH k). }
  destruct (startswith "@" part); [| destruct (contains "[" part)].
  - destruct (humanize_name_ok (drop 1 part)) as [n ->].
    rewrite !bind_Ok. intros [= <-]. apply Hall.
    apply (step_prefix i "Access the ").
  - destruct (split_cons "[" part) as (b & t & ->).
    rewrite index_cons0, bind_Ok. destruct (humanize_name_ok b) as [n ->].
    rewrite !bind_Ok. intros [= <-]. apply Hall.
    apply (step_prefix i "Select ").
  - destruct (humanize_name_ok part) as [n ->].
    rewrite !bind_Ok. intros [= <-]. apply Hall.
    apply (step_prefix i "Navigate to ").
Qed.

(** X8. The steps of a result are numbered in order from 1: the step at
    position k of the list starts with "Step k+1: ". *)
Theorem steps_are_numbered_from_one
    (xpath : string) (context : option loc) (h : heap) :
  ∃ r h',
    translate xpath context h = (Ok r, h')
    ∧ ∀ k s, steps r !! k = Some s →
             startswith ("Step " +:+ of_nat (S k) +:+ ": ") s = true.
Proof.
  destruct (translate_run xpath context h)
    as (r & t & Hrun & _ & _ & Hsteps & _).
  exists r, (h ++ t). split; [done |]. intros k s Hk.
  unfold generate_steps in Hsteps. destruct (_ && _).
  - by apply (steps_loop_numbered _ 1 _ Hsteps k s).
  - injection Hsteps as Hs. rewrite <- Hs in Hk. by rewrite lookup_nil in Hk.
Qed.

End TranslatorMore.

(** ** The recursion of [_translate_condition] is three calls deep at most *)

Section ConditionDepth.
Import PyStr Translator.

(** [no_match w s]: [\s+w\s+] matches at no position of [s]. *)
Fixpoint no_match (w s : string) : bool :=
  match s with
  | EmptyString => true
  | String _ r =>
      match match_ws_word w s with
      | Some _ => false
      | None => no_match w r
      end
  end.

(** A word whose first letter is no blank, whatever its case. *)
Definition starts_nonblank (w : string) : Prop :=
  ∀ s, prefix_ci w s = true →
       ∃ c r, s = String c r ∧ is_space c = false.

Lemma span_len_rest (p : ascii → bool) (u v : string) (c : ascii) (r : string) :
  drop (span_len p u) u = String c r → p c = false →
  span_len p (u +:+ v) = span_len p u
  ∧ drop (span_len p u) (u +:+ v) = String c r +:+ v.
Proof.
  intros Hd Hc. induction u as [|a u IH]; [done |].
  rewrite append_cons. cbn [span_len] in *. destruct (p a) eqn:Ha.
  - cbn [drop] in *. destruct (IH Hd) as [-> ->]. done.
  - cbn [drop] in *. injection Hd as -> ->. by rewrite append_cons.
Qed.

Lemma prefix_ci_app (w s v : string) :
  prefix_ci w s = true →
  prefix_ci w (s +:+ v) = true
  ∧ drop (String.length w) (s +:+ v) = drop (String.length w) s +:+ v.
Proof.
  revert s. induction w as [|a w IH]; intros s; [done |].
  destruct s as [|b s]; [done |]. rewrite append_cons.
  cbn [prefix_ci String.length drop]. intros [-> H]%andb_true_iff.
  by destruct (IH s H) as [-> ->].
Qed.

Lemma span_len_pos_app (p : ascii → bool) (s v : string) :
  (0 <? span_len p s)%nat = true → (0 <? span_len p (s +:+ v))%nat = true.
Proof.
  destruct s as [|c s]; [done |]. rewrite append_cons. cbn [span_len].
  by destruct (p c).
Qed.

(** A match at the head of a text is still there when the text goes on. *)
Lemma match_ws_word_app (w u v : string) (n : nat) :
  starts_nonblank w →
  match_ws_word w u = Some n → ∃ n', match_ws_word w (u +:+ v) = Some n'.
Proof.
  intros Hw. unfold match_ws_word.
  destruct (0 <? span_len is_space u)%nat eqn:H1; [| done].
  destruct (prefix_ci w (drop (span_len is_space u) u)) eqn:H2; [| done].
  destruct (0 <? span_len is_space
                   (drop (String.length w) (drop (span_len is_space u) u)))%nat
    eqn:H3; [| done].
  intros _. destruct (Hw _ H2) as (c & r & Hd & Hc).
  destruct (span_len_rest is_space u v c r Hd Hc) as [-> ->].
  rewrite H1. rewrite Hd in H2, H3.
  destruct (prefix_ci_app w (String c r) v H2) as [-> ->].
  rewrite (span_len_pos_app _ _ v H3). cbn [andb]. eauto.
Qed.

Lemma match_ws_word_none (w u v : string) :
  starts_nonblank w →
  match_ws_word w (u +:+ v) = None → match_ws_word w u = None.
Proof.
  intros Hw Hn. destruct (match_ws_word w u) as [n|] eqn:Hu; [| done].
  destruct (match_ws_word_app w u v n Hw Hu) as [n' Hn']. congruence.
Qed.

Lemma no_match_suffix (w pre u : string) :
  no_match w (pre +:+ u) = true → no_match w u = true.
Proof.
  induction pre as [|c pre IH]; [done |].
  rewrite append_cons. cbn [no_match]. by destruct (match_ws_word w _).
Qed.

Lemma no_match_prefix (w v post : string) :
  starts_nonblank w → no_match w (v +:+ post) = true → no_match w v = true.
Proof.
  intros Hw. induction v as [|c v IH]; [done |].
  rewrite append_cons. cbn [no_match].
  destruct (match_ws_word w (String c (v +:+ post))) eqn:Hm; [done |].
  rewrite <- append_cons in Hm.
  by rewrite (match_ws_word_none w (String c v) post Hw Hm).
Qed.

Lemma no_match_inner (w pre v post : string) :
  starts_nonblank w →
  no_match w (pre +:+ v +:+ post) = true → no_match w v = true.
Proof.
  intros Hw H. by apply (no_match_prefix w v post Hw), (no_match_suffix w pre).
Qed.

(** The first piece of a split is the head of the text. *)
Lemma first_piece_is_prefix (w s : string) :
  ∃ h t rest, re_split_go w 0 s = h :: t ∧ s = h +:+ rest.
Proof.
  induction s as [|c s (h & t & rest & IH & Hs)]; [by exists "", [], "" |].
  cbn [re_split_go]. destruct (match_ws_word w (String c s)).
  - by exists "", (re_split_go w (Nat.pred n) s), (String c s).
  - rewrite IH. exists (String c h), t, rest. by rewrite append_cons, <- Hs.
Qed.

Lemma pieces_no_match (w s : string) (skip : nat) (c : string) :
  starts_nonblank w → c ∈ re_split_go w skip s → no_match w c = true.
Proof.
  intros Hw. revert skip c.
  induction s as [|a s IH]; intros skip c; cbn [re_split_go].
  { by intros ->%list_elem_of_singleton. }
  destruct skip as [|k]; [| apply IH].
  destruct (match_ws_word w (String a s)) as [n|] eqn:Hm.
  - intros [->|Hin]%elem_of_cons; [done | by apply (IH _ _ Hin)].
  - destruct (first_piece_is_prefix w s) as (h & t & rest & Hsplit & Hs).
    rewrite Hsplit. specialize (IH 0). rewrite Hsplit in IH.
    intros [->|Hin]%elem_of_cons; [| apply IH; by right].
    cbn [no_match]. rewrite Hs, <- append_cons in Hm.
    rewrite (match_ws_word_none w (String a h) rest Hw Hm).
    apply IH. by left.
Qed.

Lemma pieces_are_inside (w s : string) (skip : nat) (c : string) :
  c ∈ re_split_go w skip s → ∃ pre post, s = pre +:+ c +:+ post.
Proof.
  revert skip. induction s as [|a s IH]; intros skip; cbn [re_split_go].
  { intros ->%list_elem_of_singleton. by exists "", "". }
  assert (∀ k, c ∈ re_split_go w k s →
               ∃ pre post, String a s = pre +:+ c +:+ post) as Hlater.
  { intros k Hin. destruct (IH k Hin) as (pre & post & ->).
    by exists (String a pre), post. }
  destruct skip as [|k]; [| apply Hlater].
  destruct (match_ws_word w (String a s)) as [n|].
  - intros [->|Hin]%elem_of_cons; [by exists "", (String a s) |].
    by apply (Hlater _ Hin).
  - destruct (first_piece_is_prefix w s) as (h & t & rest & Hsplit & Hs).
    specialize (Hlater 0). rewrite Hsplit in *.
    intros [->|Hin]%elem_of_cons; [| apply Hlater; by right].
    exists "", rest. by rewrite append_nil, append_cons, <- Hs.
Qed.

Lemma lstrip_by_inside (p : ascii → bool) (s : string) :
  ∃ pre, s = pre +:+ lstrip_by p s.
Proof.
  induction s as [|c s [pre IH]]; [by exists "" |].
  cbn [lstrip_by]. destruct (p c); [| by exists ""].
  exists (String c pre). by rewrite append_cons, <- IH.
Qed.

Lemma rstrip_by_inside (p : ascii → bool) (s : string) :
  ∃ post, s = rstrip_by p s +:+ post.
Proof.
  induction s as [|c s [post IH]]; [by exists "" |].
  cbn [rstrip_by]. destruct (rstrip_by p s) as [|c' s'].
  - destruct (p c); [by exists (String c s) |].
    exists post. by rewrite append_cons, <- IH.
  - exists post. by rewrite append_cons, <- IH.
Qed.

Lemma strip_inside (s : string) : ∃ pre post, s = pre +:+ strip s +:+ post.
Proof.
  unfold strip, strip_by. destruct (lstrip_by_inside is_space s) as [pre Hp].
  destruct (rstrip_by_inside is_space (lstrip_by is_space s)) as [post Hq].
  exists pre, post. by rewrite <- Hq.
Qed.

Lemma stripped_piece_inside (w s c : string) :
  c ∈ re_split w s → ∃ pre post, s = pre +:+ strip c +:+ post.
Proof.
  intros Hin. destruct (pieces_are_inside w s 0 c Hin) as (p1 & q1 & ->).
  destruct (strip_inside c) as (p2 & q2 & Hc).
  exists (p1 +:+ p2), (q2 +:+ q1). rewrite Hc at 1. by rewrite !append_assoc.
Qed.

Lemma stripped_piece_no_match (w s c : string) :
  starts_nonblank w → c ∈ re_split w s → no_match w (strip c) = true.
Proof.
  intros Hw Hin. destruct (strip_inside c) as (pre & post & Hc).
  apply (no_match_inner w pre _ post Hw). rewrite <- Hc.
  by apply (pieces_no_match w s 0).
Qed.

Lemma lower_char_inv (c a : ascii) :
  lower_char c = a → c = a ∨ c = upper_char a.
Proof.
  intros <-. destruct c as [[] [] [] [] [] [] [] []]; vm_compute;
    ((by left) || (by right)).
Qed.

Lemma lower_cons_inv (s : string) (a : ascii) (t : string) :
  lower s = String a t →
  ∃ c s', s = String c s' ∧ lower_char c = a ∧ lower s' = t.
Proof. destruct s as [|c s']; [done |]. intros [= <- <-]. eauto. Qed.

Lemma lower_app (a b : string) : lower (a +:+ b) = lower a +:+ lower b.
Proof.
  unfold lower. induction a as [|c a IH]; [done |].
  rewrite append_cons. cbn [map_chars]. by rewrite IH, append_cons.
Qed.

Lemma contains_lower_inside (sub pre v post : string) :
  contains sub (lower v) = true →
  contains sub (lower (pre +:+ v +:+ post)) = true.
Proof.
  rewrite !contains_spec, !lower_app. intros (a & b & ->).
  exists (lower pre +:+ a), (b +:+ lower post). by rewrite !append_assoc.
Qed.

Lemma and_starts_nonblank : starts_nonblank "and".
Proof.
  intros [|c r]; [done |]. cbn [prefix_ci]. intros [Hc _]%andb_true_iff.
  exists c, r. split; [done |]. apply Ascii.eqb_eq in Hc. symmetry in Hc.
  by destruct (lower_char_inv c _ Hc) as [-> | ->].
Qed.

Lemma or_starts_nonblank : starts_nonblank "or".
Proof.
  intros [|c r]; [done |]. cbn [prefix_ci]. intros [Hc _]%andb_true_iff.
  exists c, r. split; [done |]. apply Ascii.eqb_eq in Hc. symmetry in Hc.
  by destruct (lower_char_inv c _ Hc) as [-> | ->].
Qed.

(** A text with " and " in its lower-case form has a match of [\s+and\s+]. *)
Lemma and_token_is_a_match (s : string) :
  contains " and " (lower s) = true → no_match "and" s = false.
Proof.
  induction s as [|c s IH]; [done |].
  change (lower (String c s)) with (String (lower_char c) (lower s)).
  cbn [contains no_match]. intros [Hp | Ht]%orb_true_iff.
  - apply prefix_spec in Hp as [rest Hp].
    injection Hp as H1 Hp.
    apply lower_cons_inv in Hp as (c2 & s2 & -> & H2 & Hp).
    apply lower_cons_inv in Hp as (c3 & s3 & -> & H3 & Hp).
    apply lower_cons_inv in Hp as (c4 & s4 & -> & H4 & Hp).
    apply lower_cons_inv in Hp as (c5 & s5 & -> & H5 & Hp).
    destruct (lower_char_inv _ _ H1) as [-> | ->];
      destruct (lower_char_inv _ _ H2) as [-> | ->];
      destruct (lower_char_inv _ _ H3) as [-> | ->];
      destruct (lower_char_inv _ _ H4) as [-> | ->];
      destruct (lower_char_inv _ _ H5) as [-> | ->]; by vm_compute.
  - rewrite (IH Ht). by destruct (match_ws_word _ _).
Qed.

Lemma or_token_is_a_match (s : string) :
  contains " or " (lower s) = true → no_match "or" s = false.
Proof.
  induction s as [|c s IH]; [done |].
  change (lower (String c s)) with (String (lower_char c) (lower s)).
  cbn [contains no_match]. intros [Hp | Ht]%orb_true_iff.
  - apply prefix_spec in Hp as [rest Hp].
    injection Hp as H1 Hp.
    apply lower_cons_inv in Hp as (c2 & s2 & -> & H2 & Hp).
    apply lower_cons_inv in Hp as (c3 & s3 & -> & H3 & Hp).
    apply lower_cons_inv in Hp as (c4 & s4 & -> & H4 & Hp).
    destruct (lower_char_inv _ _ H1) as [-> | ->];
      destruct (lower_char_inv _ _ H2) as [-> | ->];
      destruct (lower_char_inv _ _ H3) as [-> | ->];
      destruct (lower_char_inv _ _ H4) as [-> | ->]; by vm_compute.
  - rewrite (IH Ht). by destruct (match_ws_word _ _).
Qed.

Lemma mapM_members {A B} (f : A → result B) (P : B → Prop) (l : list A) :
  (∀ x, x ∈ l → ∃ y, f x = Ok y ∧ P y) →
  ∃ ys, mapM f l = Ok ys ∧ Forall P ys ∧ length ys = length l.
Proof.
  induction l as [|x l IH]; intros Hf; cbn [mapM].
  { by exists []. }
  destruct (Hf x) as (y & Hy & HP); [by left |].
  destruct IH as (ys & Hys & HPs & Hlen); [intros z Hz; apply Hf; by right |].
  exists (y :: ys). rewrite Hy, bind_Ok, Hys, bind_Ok.
  repeat split; [by constructor | simpl; by rewrite Hlen].
Qed.

Lemma join_nonempty (sep : string) (ys : list string) :
  ys ≠ [] → Forall (λ y, y ≠ "") ys → join sep ys ≠ "".
Proof.
  destruct ys as [|y [|z ys]]; [done | |]; intros _ H; inversion_clear H.
  - done.
  - cbn [join]. by apply append_nonempty_l.
Qed.

(** The split-and-join of [_translate_condition] returns when the recursive
    calls do. *)
Lemma split_branch_ok (d : nat) (w sep xpath : string) (context : loc) :
  (∀ c, c ∈ re_split w xpath →
        ∃ out, translate_condition d (strip c) context = Ok out ∧ out ≠ "") →
  ∃ out,
    (translated ← mapM (λ c, translate_condition d (strip c) context)
                       (re_split w xpath);
     Ok (join sep translated)) = Ok out
    ∧ out ≠ "".
Proof.
  intros H. destruct (mapM_members _ (λ y, y ≠ "") _ H) as (ys & -> & HP & Hl).
  rewrite bind_Ok. eexists. split; [done |]. apply join_nonempty; [| done].
  destruct (first_piece_is_prefix w xpath) as (h & t & _ & Hs & _).
  unfold re_split in Hl. rewrite Hs in Hl. by destruct ys.
Qed.

Lemma is_check_if_nonempty (a b c : string) :
  "Check if " +:+ a +:+ " " +:+ b +:+ " " +:+ c ≠ "".
Proof. by apply append_nonempty_l. Qed.

Lemma condition_depth_1 (d : nat) (xpath : string) (context : loc) :
  contains " and " (lower xpath) = false →
  contains " or " (lower xpath) = false →
  ∃ out, translate_condition (S d) xpath context = Ok out ∧ out ≠ "".
Proof.
  intros Hand Hor. destruct (any_in (keys operators) xpath) eqn:Hk.
  - destruct (translate_condition_hit d xpath context Hk)
      as (a & b & c & ->).
    eexists. split; [done | apply is_check_if_nonempty].
  - rewrite translate_condition_S, (comparison_loop_miss _ _ Hk), bind_Ok.
    rewrite Hand, Hor. eexists. split; [done | by apply append_nonempty_l].
Qed.

Lemma condition_depth_2 (d : nat) (xpath : string) (context : loc) :
  contains " and " (lower xpath) = false →
  ∃ out, translate_condition (S (S d)) xpath context = Ok out ∧ out ≠ "".
Proof.
  intros Hand. destruct (any_in (keys operators) xpath) eqn:Hk.
  - destruct (translate_condition_hit (S d) xpath context Hk)
      as (a & b & c & ->).
    eexists. split; [done | apply is_check_if_nonempty].
  - rewrite translate_condition_S, (comparison_loop_miss _ _ Hk), bind_Ok.
    rewrite Hand. destruct (contains " or " (lower xpath)) eqn:Hor;
      [| eexists; split; [done | by apply append_nonempty_l]].
    apply split_branch_ok. intros c Hc. apply condition_depth_1.
    + destruct (stripped_piece_inside _ _ _ Hc) as (pre & post & Hx).
      destruct (contains " and " (lower (strip c))) eqn:E; [| done].
      rewrite Hx in Hand.
      by rewrite (contains_lower_inside _ pre _ post E) in Hand.
    + pose proof (stripped_piece_no_match _ _ _ or_starts_nonblank Hc) as Hn.
      destruct (contains " or " (lower (strip c))) eqn:E; [| done].
      by rewrite (or_token_is_a_match _ E) in Hn.
Qed.

Lemma condition_depth_3 (d : nat) (xpath : string) (context : loc) :
  ∃ out, translate_condition (S (S (S d))) xpath context = Ok out ∧ out ≠ "".
Proof.
  destruct (any_in (keys operators) xpath) eqn:Hk.
  - destruct (translate_condition_hit (S (S d)) xpath context Hk)
      as (a & b & c & ->).
    eexists. split; [done | apply is_check_if_nonempty].
  - rewrite translate_condition_S, (comparison_loop_miss _ _ Hk), bind_Ok.
    destruct (contains " and " (lower xpath)) eqn:Hand.
    + apply split_branch_ok. intros c Hc. apply condition_depth_2.
      pose proof (stripped_piece_no_match _ _ _ and_starts_nonblank Hc) as Hn.
      destruct (contains " and " (lower (strip c))) eqn:E; [| done].
      by rewrite (and_token_is_a_match _ E) in Hn.
    + destruct (contains " or " (lower xpath)) eqn:Hor;
        [| eexists; split; [done | by apply append_nonempty_l]].
      apply split_branch_ok. intros c Hc. apply condition_depth_2.
      destruct (stripped_piece_inside _ _ _ Hc) as (pre & post & Hx).
      destruct (contains " and " (lower (strip c))) eqn:E; [| done].
      rewrite Hx in Hand.
      by rewrite (contains_lower_inside _ pre _ post E) in Hand.
Qed.

(** X9. [_translate_condition] returns for every text, however its "and"
    and "or" are nested, and its result is not empty: the recursion is three
    calls deep at most.  Two calls are not always enough. *)
Theorem condition_recursion_is_bounded
    (d : nat) (xpath : string) (context : loc) :
  (∃ out, translate_condition (3 + d) xpath context = Ok out ∧ out ≠ "")
  ∧ translate_condition 2 "A AND B OR C" context = Raise RecursionError.
Proof. split; [apply condition_depth_3 | reflexivity]. Qed.

End ConditionDepth.

(** ** Operands and path selections *)

Section Wording.
Import PyStr Translator.

Lemma rstrip_by_none (p : ascii → bool) (s : string) :
  all_chars (λ c, negb (p c)) s = true → rstrip_by p s = s.
Proof.
  induction s as [|c s IH]; [done |].
  cbn [all_chars rstrip_by]. intros [Hc Hs]%andb_true_iff.
  rewrite (IH Hs). apply negb_true_iff in Hc. rewrite Hc. by destruct s.
Qed.

Lemma lstrip_by_none (p : ascii → bool) (s : string) :
  all_chars (λ c, negb (p c)) s = true → lstrip_by p s = s.
Proof.
  destruct s as [|c s]; [done |]. cbn [all_chars lstrip_by].
  intros [Hc _]%andb_true_iff. apply negb_true_iff in Hc. by rewrite Hc.
Qed.

(** A character of a number: a digit or the dot. *)
Definition number_char (c : ascii) : bool := is_09 c || is_char "." c.

Lemma number_char_facts (c : ascii) :
  number_char c = true →
  is_space c = false ∧ is_quote c = false
  ∧ (Ascii.eqb c "." = false → is_09 c = true).
Proof. destruct c as [[] [] [] [] [] [] [] []]; by vm_compute. Qed.

Lemma digits_remain (o : string) :
  all_chars number_char o = true →
  all_chars (is_char ".") o = false →
  isdigit (replace "." "" o) = true.
Proof.
  intros Hn Hd.
  assert (all_chars is_09 (replace "." "" o) = true) as Hall.
  { apply (all_chars_replace number_char); [done | done |].
    intros a Ha. by apply number_char_facts. }
  assert (replace "." "" o ≠ "") as Hne.
  { clear Hall. induction o as [|c o IH]; [done |].
    cbn [all_chars replace] in *. apply andb_true_iff in Hn as [_ Hn].
    unfold is_char in Hd at 1. rewrite Ascii.eqb_sym in Hd.
    destruct (Ascii.eqb c "."); [| done].
    rewrite append_nil. by apply IH. }
  unfold isdigit. by destruct (replace "." "" o).
Qed.

(** X18. An operand made of digits and dots, with one digit at least, is a
    number for [_translate_operand] and is returned as it stands, however
    many dots it has. *)
Theorem numeric_operand_is_kept (operand : string) :
  all_chars number_char operand = true →
  all_chars (is_char ".") operand = false →
  translate_operand operand = Ok operand.
Proof.
  intros Hn Hd. unfold translate_operand.
  assert (strip operand = operand) as ->.
  { assert (all_chars (λ c, negb (is_space c)) operand = true) as Hs.
    { apply (all_chars_impl number_char); [| done].
      intros c Hc. by destruct (number_char_facts c Hc) as (-> & _). }
    unfold strip, strip_by. by rewrite (lstrip_by_none _ _ Hs), rstrip_by_none. }
  assert (∀ q : ascii, is_quote q = true → startswith (String q "") operand
                                           = false) as Hq.
  { intros q Hq. destruct operand as [|c o]; [done |].
    cbn [all_chars] in Hn. apply andb_true_iff in Hn as [Hc _].
    destruct (number_char_facts c Hc) as (_ & Hcq & _).
    unfold startswith. cbn. destruct (ascii_dec q c); [congruence | done]. }
  rewrite (Hq "'"%char eq_refl), (Hq (ascii_of_nat 34) eq_refl). cbn [andb orb].
  by rewrite (digits_remain operand Hn Hd).
Qed.

Lemma numeric_operand_is_kept_witness : translate_operand "1.2.3" = Ok "1.2.3".
Proof. exact (numeric_operand_is_kept "1.2.3" eq_refl eq_refl). Defined.

(** Cutting the leading "/" off changes no piece of a path. *)
Lemma split_after_lstrip (c : ascii) (s : string) :
  List.filter truthy (split c (lstrip_by (is_char c) s))
  = List.filter truthy (split c s).
Proof.
  induction s as [|a s IH]; [done |].
  cbn [lstrip_by split]. unfold is_char at 1. rewrite Ascii.eqb_sym.
  destruct (Ascii.eqb a c) eqn:E; [by rewrite IH |].
  cbn [split]. by rewrite E.
Qed.

(** The wording of a path selection, by the number of its pieces. *)
Definition selection_shape (parts : list string) (out : string) : Prop :=
  (parts = [] → out = "Select the root element")
  ∧ (length parts = 1 → startswith "Select " out = true)
  ∧ (2 ≤ length parts → startswith "Navigate to: " out = true).

Lemma translate_selection_shape (d : nat) (xpath : string) (context : loc) :
  runs (translate_selection (S d) xpath context)
       (selection_shape (List.filter truthy (split "/" xpath))).
Proof.
  unfold translate_selection. rewrite split_after_lstrip.
  destruct (List.filter truthy (split "/" xpath)) as [|p ps].
  { apply runs_ret. unfold selection_shape. cbn [length].
    split; [done |]. split; [done | lia]. }
  eapply runs_bind; [apply runs_mapM, readable_part_runs |].
  intros rs Hlen. unfold selection_shape.
  destruct rs as [|r0 [|r1 rs]]; [done | |].
  - cbn [length Nat.eqb].
    eapply runs_bind; [by eapply (runs_lift _ _ (λ r, r = r0)) |].
    intros ? ->. apply runs_ret. split; [done |]. split.
    + intros _. apply prefix_spec. by exists r0.
    + cbn [length] in *. lia.
  - cbn [length Nat.eqb]. apply runs_ret. split; [done |]. split.
    + cbn [length] in *. lia.
    + intros _. apply prefix_spec. by eexists.
Qed.

(** X19. A path selection is worded by the number of its non-empty pieces
    between "/": none gives "Select the root element" (so for the empty
    expression and for "/" alone), one gives "Select ...", two or more give
    "Navigate to: ..."; and when the expression has a "/", there is one step
    for each piece. *)
Theorem selection_wording
    (xpath : string) (context : option loc) (h : heap) :
  let parts := List.filter truthy (split "/" (strip xpath)) in
  ∃ r h',
    translate xpath context h = (Ok r, h')
    ∧ (type r = "selection" →
       selection_shape parts (description r)
       ∧ (contains "/" (strip xpath) = true →
          length (steps r) = length parts)).
Proof.
  intros parts. set (x := strip xpath) in *.
  destruct (determine_type_cases x) as [[E _]|[[E _]|[E|E]]].
  1-3: destruct (translate_run xpath context h)
         as (r & t & Hrun & _ & Ht & _); fold x in Ht; exists r, (h ++ t);
       (split; [done |]); intros Hsel; rewrite Hsel in Ht;
       rewrite E in Ht; discriminate.
  destruct recursion_limit_S as [fuel Hfuel].
  destruct (context_or_new_spec context h) as (l & t1 & Hctx & Hl).
  destruct (translate_selection_shape fuel x l (h ++ t1))
    as (d & t2 & Hd & Hshape).
  rewrite <- Hfuel in Hd.
  destruct (generate_steps_ok x l) as [ss Hss].
  eexists _, _. unfold translate.
  rewrite (bind_run _ _ _ _ _ Hctx). cbv zeta. fold x. rewrite E.
  cbn [String.eqb Ascii.eqb Bool.eqb].
  rewrite (bind_run _ _ _ _ _ Hd).
  rewrite (bind_run (lift (generate_steps x l)) _ _ _ ss)
    by (unfold lift; by rewrite Hss).
  rewrite (bind_run _ _ _ _ _
             (extract_data_flow_run x l _ _ (lookup_app_l_Some _ t2 _ _ Hl))).
  split; [done |]. cbn [description type steps]. intros _.
  split; [done |]. intros Hslash. unfold generate_steps in Hss.
  rewrite Hslash in Hss. cbn [andb] in Hss.
  destruct (startswith "$" x) eqn:Hdollar.
  - unfold determine_type in E. rewrite Hdollar in E. discriminate.
  - cbn [negb] in Hss.
    destruct (steps_loop_ok parts 1) as (ss' & Hss' & Hlen).
    unfold parts in Hss'. congruence.
Qed.

End Wording.

(** * Further properties of the extractor *)

Section ParserMore.
Import PyStr Parser.

(** How a pass grows over a loop: every round adds records that satisfy
    [Q], so the loop does. *)
Lemma fold_adds (step : pass → Element → pass) (Q : XPathRecord → Prop)
    (els : list Element) :
  (∀ st e, e ∈ els →
           ∃ added, (step st e).2 = st.2 ++ added ∧ Forall Q added) →
  ∀ st, ∃ added,
    (fold_left step els st).2 = st.2 ++ added ∧ Forall Q added.
Proof.
  induction els as [|e els IH]; intros Hstep st; cbn [fold_left].
  - exists []. by rewrite app_nil_r.
  - destruct (Hstep st e) as (a1 & H1 & Q1); [by left |].
    destruct (IH (λ st' e' Hin,
                    Hstep st' e' (proj2 (elem_of_cons _ _ _) (or_intror Hin)))
                 (step st e)) as (a2 & H2 & Q2).
    exists (a1 ++ a2). rewrite H2, H1, app_assoc. split; [done |].
    by apply Forall_app.
Qed.

Lemma adds_nothing (Q : XPathRecord → Prop) (l : list XPathRecord) :
  ∃ added, l = l ++ added ∧ Forall Q added.
Proof. exists []. by rewrite app_nil_r. Qed.

Lemma adds_one (Q : XPathRecord → Prop) (mk : nat → XPathRecord) (st : pass) :
  Q (mk st.1) →
  ∃ added, (append mk st).2 = st.2 ++ added ∧ Forall Q added.
Proof. intros HQ. exists [mk st.1]. split; [done | by constructor]. Qed.

Lemma is_xpath_length (t : string) :
  is_xpath t = true → (3 ≤ String.length t)%nat.
Proof.
  unfold is_xpath. destruct (negb (truthy t)); [done |]. cbn [orb].
  destruct (Nat.ltb_spec (String.length t) 3); [done | lia].
Qed.

(** What the four loops add: records of their own location. *)
Lemma mapper_step_adds (st : pass) (m : Element) :
  ∃ added, (mapper_step st m).2 = st.2 ++ added
    ∧ Forall (λ r, location r = "Mapper"
                   ∧ is_xpath (expression r) = true) added.
Proof.
  unfold mapper_step.
  destruct (truthy _); [| apply adds_nothing]. cbn [andb].
  destruct (is_xpath _) eqn:Hx; [| apply adds_nothing].
  by apply adds_one.
Qed.

Lemma transition_step_adds (st : pass) (t : Element) :
  ∃ added, (transition_step st t).2 = st.2 ++ added
    ∧ Forall (λ r, location r = "Transition Condition"
                   ∧ context r = {["type" := PStr "condition"]}
                   ∧ is_xpath (expression r) = true) added.
Proof.
  unfold transition_step.
  destruct (truthy _); [| apply adds_nothing]. cbn [andb].
  destruct (is_xpath _) eqn:Hx; [| apply adds_nothing].
  by apply adds_one.
Qed.

Lemma config_step_adds (st : pass) (c : Element) :
  ∃ added, (config_step st c).2 = st.2 ++ added
    ∧ Forall (λ r, location r = "Activity Configuration"
                   ∧ context r = ∅
                   ∧ is_xpath (expression r) = true) added.
Proof.
  unfold config_step.
  destruct (has_text _); [| apply adds_nothing]. cbn [andb].
  destruct (is_xpath _) eqn:Hx; [| apply adds_nothing].
  by apply adds_one.
Qed.

Lemma text_step_adds (root : Element) (st : pass) (e : Element) :
  e ∈ iter root →
  ∃ added, (text_step st e).2 = st.2 ++ added
    ∧ Forall (λ r, (∃ e', e' ∈ iter root ∧ location r = tag e')
                   ∧ context r = ∅
                   ∧ is_xpath (expression r) = true) added.
Proof.
  intros Hin. unfold text_step.
  destruct (has_text _); [| apply adds_nothing]. cbn [andb].
  destruct (is_xpath _) eqn:Hx; [| apply adds_nothing].
  destruct (negb _); [| apply adds_nothing].
  apply adds_one. cbn. eauto.
Qed.

(** X10. The records of a pass come in the order of the four strategies:
    first those of the mappings, then those of the transitions (context
    {type: "condition"}), then those of the config bodies, then those of the
    text scan, whose location is the tag of an element of the document; the
    last two kinds have an empty context. *)
Theorem records_follow_the_strategies (root : Element) (next : nat) :
  ∃ mappers transitions configs scanned,
    (extract_xpaths root next).2
    = mappers ++ transitions ++ configs ++ scanned
    ∧ Forall (λ r, location r = "Mapper") mappers
    ∧ Forall (λ r, location r = "Transition Condition"
                   ∧ context r = {["type" := PStr "condition"]}) transitions
    ∧ Forall (λ r, location r = "Activity Configuration" ∧ context r = ∅)
             configs
    ∧ Forall (λ r, (∃ e, e ∈ iter root ∧ location r = tag e)
                   ∧ context r = ∅) scanned.
Proof.
  unfold extract_xpaths, text_scan, structured_pass.
  set (s1 := fold_left mapper_step (findall "mapping" root) (next, [])).
  set (s2 := fold_left transition_step (findall "transition" root) s1).
  set (s3 := fold_left config_step (findall "config" root) s2).
  destruct (fold_adds mapper_step _ (findall "mapping" root)
              (λ st e _, mapper_step_adds st e) (next, []))
    as (ms & H1 & Q1).
  destruct (fold_adds transition_step _ (findall "transition" root)
              (λ st e _, transition_step_adds st e) s1) as (ts & H2 & Q2).
  destruct (fold_adds config_step _ (findall "config" root)
              (λ st e _, config_step_adds st e) s2) as (cs & H3 & Q3).
  destruct (fold_adds text_step _ (iter root)
              (λ st e Hin, text_step_adds root st e Hin) s3)
    as (sc & H4 & Q4).
  exists ms, ts, cs, sc. fold s1 in H1. fold s2 in H2. fold s3 in H3.
  rewrite H4, H3, H2, H1. cbn [snd app]. rewrite <- !app_assoc.
  split; [done |].
  repeat split; (eapply Forall_impl; [eassumption |]); cbn; tauto.
Qed.

(** X11. Every record of a pass holds an expression that passes the
    likelihood test, so one of three characters at least. *)
Theorem records_hold_likely_expressions (root : Element) (next : nat) :
  Forall (λ r, is_xpath (expression r) = true
               ∧ (3 ≤ String.length (expression r))%nat)
         (extract_xpaths root next).2.
Proof.
  unfold extract_xpaths, text_scan, structured_pass.
  set (s1 := fold_left mapper_step (findall "mapping" root) (next, [])).
  set (s2 := fold_left transition_step (findall "transition" root) s1).
  set (s3 := fold_left config_step (findall "config" root) s2).
  destruct (fold_adds mapper_step _ (findall "mapping" root)
              (λ st e _, mapper_step_adds st e) (next, []))
    as (ms & H1 & Q1).
  destruct (fold_adds transition_step _ (findall "transition" root)
              (λ st e _, transition_step_adds st e) s1) as (ts & H2 & Q2).
  destruct (fold_adds config_step _ (findall "config" root)
              (λ st e _, config_step_adds st e) s2) as (cs & H3 & Q3).
  destruct (fold_adds text_step _ (iter root)
              (λ st e Hin, text_step_adds root st e Hin) s3)
    as (sc & H4 & Q4).
  fold s1 in H1. fold s2 in H2. fold s3 in H3.
  rewrite H4, H3, H2, H1. cbn [snd app].
  repeat apply Forall_app_2;
    (eapply Forall_impl; [eassumption |]); cbn;
    intros r Hr; (split; [| apply is_xpath_length]); tauto.
Qed.

(** X12. The text scan lists a text once at most, and never a text that is
    the expression of a record of the three strategies before it. *)
Theorem text_scan_adds_new_texts_once (root : Element) (next : nat) :
  ∃ scanned,
    (extract_xpaths root next).2
    = (structured_pass root (next, [])).2 ++ scanned
    ∧ NoDup (expressions scanned)
    ∧ ∀ x, x ∈ expressions scanned →
           x ∉ expressions (structured_pass root (next, [])).2.
Proof. apply text_fold_fresh. Qed.

Lemma variables_loop (vars : list Element) (acc : list ProcessVariable) :
  fold_left
    (λ acc var,
       let var_name := get var "name" "" in
       let var_type := get var "type" "" in
       if truthy var_name
       then acc ++ [{| var_name := var_name; var_type := var_type |}]
       else acc) vars acc
  = acc ++ map (λ var, {| var_name := get var "name" "";
                          var_type := get var "type" "" |})
               (List.filter (λ var, truthy (get var "name" "")) vars).
Proof.
  revert acc. induction vars as [|v vars IH]; intros acc; cbn [fold_left].
  - by rewrite app_nil_r.
  - rewrite IH. cbn [List.filter]. destruct (truthy (get v "name" ""));
      [| done]. cbn [map]. by rewrite <- app_assoc.
Qed.

(** X13. The variables of the metadata are the [processVariables] elements
    below the root that carry a non-empty name, in document order, each
    with its type ("" when it has none); the process name is the root's name
    or "Unknown"; no schema is ever listed. *)
Theorem metadata_lists_named_variables (root : Element) :
  variables (extract_metadata root)
  = map (λ var, {| var_name := get var "name" "";
                   var_type := get var "type" "" |})
        (List.filter (λ var, truthy (get var "name" ""))
                     (findall "processVariables" root))
  ∧ process_name (extract_metadata root) = get root "name" "Unknown"
  ∧ schemas (extract_metadata root) = [].
Proof.
  unfold extract_metadata. cbn [variables process_name schemas].
  by rewrite variables_loop.
Qed.

Lemma char_absent (p : ascii → bool) (a : ascii) (t : string) :
  all_chars p t = true → p a = false → contains (String a "") t = false.
Proof.
  intros Ht Ha. induction t as [|c t IH]; [done |].
  cbn [all_chars contains] in *. apply andb_true_iff in Ht as [Hc Ht].
  rewrite (IH Ht), orb_false_r. cbn.
  destruct (ascii_dec a c) as [->|]; [congruence | done].
Qed.

(** The characters one of which every indicator holds. *)
Definition marker_char (c : ascii) : bool :=
  existsb (Ascii.eqb c) ["/"; "@"; "["; "]"; "$"; "("; ":"]%char.

Lemma indicator_needs_marker (ind u w t : string) (a : ascii) :
  ind = u +:+ String a "" +:+ w → marker_char a = true →
  all_chars (λ c, negb (marker_char c)) t = true →
  contains ind t = false.
Proof.
  intros -> Ha Ht. destruct (contains _ t) eqn:E; [| done].
  apply contains_inner in E.
  rewrite (char_absent _ a t Ht) in E; [done | by rewrite Ha].
Qed.

Local Ltac no_indicator ind u w a Ht :=
  rewrite (indicator_needs_marker ind u w _ a eq_refl eq_refl Ht).

(** X14. A text with none of the characters / @ [ ] $ ( : is no
    expression for the likelihood test, whatever its length: a bare element
    name is never extracted. *)
Theorem is_xpath_needs_a_marker (t : string) :
  all_chars (λ c, negb (marker_char c)) t = true → is_xpath t = false.
Proof.
  intros Ht. unfold is_xpath. destruct (_ || _); [done |].
  unfold xpath_indicators. cbn [existsb].
  no_indicator "/" "" "" "/"%char Ht.
  no_indicator "@" "" "" "@"%char Ht.
  no_indicator "[" "" "" "["%char Ht.
  no_indicator "]" "" "" "]"%char Ht.
  no_indicator "text()" "text" ")" "("%char Ht.
  no_indicator "node()" "node" ")" "("%char Ht.
  no_indicator "ancestor::" "ancestor" ":" ":"%char Ht.
  no_indicator "child::" "child" ":" ":"%char Ht.
  no_indicator "parent::" "parent" ":" ":"%char Ht.
  no_indicator "following::" "following" ":" ":"%char Ht.
  no_indicator "preceding::" "preceding" ":" ":"%char Ht.
  no_indicator "count(" "count" "" "("%char Ht.
  no_indicator "sum(" "sum" "" "("%char Ht.
  no_indicator "concat(" "concat" "" "("%char Ht.
  no_indicator "substring(" "substring" "" "("%char Ht.
  no_indicator "string(" "string" "" "("%char Ht.
  no_indicator "$" "" "" "$"%char Ht.
  done.
Qed.

Lemma is_xpath_needs_a_marker_witness : is_xpath "OrderId" = false.
Proof. exact (is_xpath_needs_a_marker "OrderId" eq_refl). Defined.

End ParserMore.

(** * Extraction and translation together *)

Section AppFacts.
Import PyStr.

Lemma rsplit_once_none (c : ascii) (s : string) :
  contains (String c "") s = false → App.rsplit_once c s = None.
Proof.
  induction s as [|a s IH]; [done |].
  cbn [contains App.rsplit_once]. intros [Hp Hs]%orb_false_iff.
  rewrite (IH Hs). destruct (Ascii.eqb_spec a c) as [->|Hne]; [| done].
  exfalso. cbn in Hp. destruct (ascii_dec c c); [by destruct s | done].
Qed.

Lemma rsplit_once_last (c : ascii) (u v : string) :
  contains (String c "") v = false →
  App.rsplit_once c (u +:+ String c v) = Some (u, v).
Proof.
  intros Hv. induction u as [|a u IH].
  - rewrite append_nil. cbn [App.rsplit_once].
    by rewrite (rsplit_once_none c v Hv), Ascii.eqb_refl.
  - rewrite append_cons. cbn [App.rsplit_once]. by rewrite IH.
Qed.

(** X15. Only the text after the last "." decides whether a file name is
    allowed, whatever its case: "stem.ext" is allowed exactly when the
    lower-case form of ext is xml, process or bwp; a name without "." is
    refused; and no name makes the test fail. *)
Theorem allowed_file_reads_the_last_extension (filename : string) :
  (∃ b, App.allowed_file filename = Ok b)
  ∧ (contains "." filename = false → App.allowed_file filename = Ok false)
  ∧ (∀ stem ext,
       filename = stem +:+ "." +:+ ext → contains "." ext = false →
       App.allowed_file filename
       = Ok (bool_decide (lower ext ∈ App.ALLOWED_EXTENSIONS))).
Proof.
  assert (∀ stem ext,
            filename = stem +:+ "." +:+ ext → contains "." ext = false →
            App.allowed_file filename
            = Ok (bool_decide (lower ext ∈ App.ALLOWED_EXTENSIONS))) as Hlast.
  { intros stem ext -> Hext. unfold App.allowed_file.
    assert (contains "." (stem +:+ "." +:+ ext) = true) as ->.
    { apply contains_spec. by exists stem, ext. }
    unfold App.rsplit1. change ("." +:+ ext) with (String "." ext).
    by rewrite (rsplit_once_last "." stem ext Hext). }
  repeat split; [| by unfold App.allowed_file; intros -> | exact Hlast].
  unfold App.allowed_file. destruct (contains "." filename) eqn:Hc;
    [| by eexists].
  unfold App.rsplit1. destruct (App.rsplit_once "." filename) as [[a b]|] eqn:E.
  - by eexists.
  - apply contains_spec in Hc as (u & v & ->).
    change ("." +:+ v) with (String "." v) in E.
    assert (∀ w, App.rsplit_once "." (w +:+ String "." v) ≠ None) as Hsome.
    { clear. induction w as [|a w IH].
      - rewrite append_nil. cbn [App.rsplit_once].
        by destruct (App.rsplit_once "." v) as [[]|].
      - rewrite append_cons. cbn [App.rsplit_once].
        by destruct (App.rsplit_once "." (w +:+ String "." v)) as [[]|]. }
    by destruct (Hsome u).
Qed.

Lemma mapM_runs {A B} (f : A → M B) (P : A → B → Prop) (l : list A) :
  (∀ x, runs (f x) (P x)) → runs (mapM f l) (Forall2 P l).
Proof.
  intros Hf. induction l as [|x l IH]; cbn [mapM].
  - apply runs_ret. constructor.
  - eapply runs_bind; [apply Hf |]. intros y Hy.
    eapply runs_bind; [apply IH |]. intros ys Hys.
    apply runs_ret. by constructor.
Qed.

(** X16. The loop of the route [parse_file] goes through any list of
    records without an exception: it gives one entry for each record, in
    order, with the record's identifier, expression, location, activity
    and context, and with a description that is not empty. *)
Theorem every_record_is_translated
    (xpaths : list Parser.XPathRecord) (h : heap) :
  ∃ results h',
    App.translate_items xpaths h = (Ok results, h')
    ∧ Forall2
        (λ item t,
           App.id t = Parser.id item
           ∧ App.xpath t = Parser.expression item
           ∧ App.location t = Parser.location item
           ∧ App.activity t = Parser.activity item
           ∧ App.context t = Parser.context item
           ∧ App.plain_language t ≠ "")
        xpaths results.
Proof.
  destruct (mapM_runs App.translate_item
              (λ item t,
                 App.id t = Parser.id item
                 ∧ App.xpath t = Parser.expression item
                 ∧ App.location t = Parser.location item
                 ∧ App.activity t = Parser.activity item
                 ∧ App.context t = Parser.context item
                 ∧ App.plain_language t ≠ "") xpaths) with h
    as (results & t & Hrun & Hall).
  { intros item. unfold App.translate_item.
    eapply runs_bind; [apply runs_alloc |]. intros ctx _.
    eapply (runs_bind _ _ (λ r, Translator.description r ≠ "")).
    - intros h0.
      destruct (translate_run (Parser.expression item) (Some ctx) h0)
        as (r & t & Hrun & Hne & _).
      by exists r, t.
    - intros r Hne. by apply runs_ret. }
  by exists results, (h ++ t).
Qed.

(** X17. For a record of the Mapper strategy the data flow of its
    translation carries the mapping's own source and target attributes, and
    the empty string for an attribute the mapping lacks: "Unknown" is
    never reported for a mapping. *)
Theorem mapper_flow_is_the_attributes
    (mapper : Parser.Element) (xpath : string) (l : loc) (h : heap) :
  h !! l = Some (Parser.extract_context mapper) →
  ∃ r h',
    Translator.translate xpath (Some l) h = (Ok r, h')
    ∧ Translator.source (Translator.data_flow r)
      = PStr (Parser.get mapper "source" "")
    ∧ Translator.target (Translator.data_flow r)
      = PStr (Parser.get mapper "target" "").
Proof.
  intros Hl.
  destruct (translate_run xpath (Some l) h)
    as (r & t & Hrun & _ & _ & _ & _ & Hflow & _).
  exists r, (h ++ t). split; [done |]. rewrite Hflow.
  cbn [context_dict Translator.source Translator.target]. rewrite Hl.
  unfold Parser.extract_context.
  destruct (truthy _); by simplify_map_eq.
Qed.

Lemma mapper_flow_is_the_attributes_witness :
  ∃ r h',
    Translator.translate "/a/b" (Some 0)
      [Parser.extract_context dedup_mapping] = (Ok r, h')
    ∧ Translator.source (Translator.data_flow r)
      = PStr (Parser.get dedup_mapping "source" "")
    ∧ Translator.target (Translator.data_flow r)
      = PStr (Parser.get dedup_mapping "target" "").
Proof.
  exact (mapper_flow_is_the_attributes dedup_mapping "/a/b" 0
           [Parser.extract_context dedup_mapping] eq_refl).
Defined.

End AppFacts.
